(** * collabnotes: the note controller, embedded and verified

    Shallow embedding of [backend/src/controllers/noteController.js]: the six
    request handlers [getNotes], [getNote], [createNote], [updateNote],
    [deleteNote] and [shareNote], over an explicit model of the document
    store, of Mongoose's [populate] and of the socket notification sink. *)

From Stdlib Require Import Ascii String.
From stdpp Require Import gmap strings list sorting.

Local Open Scope string_scope.
Local Open Scope Z_scope.

(** ** Data model *)

(** A MongoDB [ObjectId]; the controller only compares ids with [equals]. *)
Abbreviation ObjectId := N.

(** The fields of a [User] document that the controller reads. *)
Record User := mkUser {
  user_id : ObjectId;
  user_name : string;
  user_email : string
}.

(** An entry of [note.collaborators]: [{ userId, permission }]. The
    permission is kept as the string the request carried. *)
Record Collaborator := mkCollaborator {
  userId : ObjectId;
  permission : string
}.

(** A stored note. Its [_id] is the key it is stored under in [notes]. *)
Record Note := mkNote {
  title : string;
  content : string;
  createdBy : ObjectId;
  collaborators : list Collaborator;
  isArchived : bool;
  lastUpdated : Z
}.

Global Instance User_eq_dec : EqDecision User.
Proof. solve_decision. Defined.
Global Instance Collaborator_eq_dec : EqDecision Collaborator.
Proof. solve_decision. Defined.
Global Instance Note_eq_dec : EqDecision Note.
Proof. solve_decision. Defined.

(** A call [notifyCollaborators(noteId, message, excludedUserId)]. *)
Record NotifyCall := mkNotify {
  notify_note : ObjectId;
  notify_message : string;
  notify_excluded : ObjectId
}.

(** The world a handler runs in: the [Note] collection keyed by [_id], the
    [User] collection, and the calls made so far to the socket layer. *)
Record World := mkWorld {
  notes : gmap N Note;
  users : list User;
  outbox : list NotifyCall
}.

Definition set_notes (f : gmap N Note → gmap N Note) (w : World) : World :=
  mkWorld (f (notes w)) (users w) (outbox w).

Definition push_outbox (c : NotifyCall) (w : World) : World :=
  mkWorld (notes w) (users w) (outbox w ++ [c]).

(** ** Exceptions and the handler monad

    Every handler body is [try { ... } catch (error) { res.status(500)... }].
    The body runs in a state-and-exception monad; what was written before a
    throw stays written. *)

Inductive Exn :=
| TypeError (msg : string)
| ValidationFailed (msg : string)
| MongoServerError (msg : string).

Definition exn_message (e : Exn) : string :=
  match e with
  | TypeError m | ValidationFailed m | MongoServerError m => m
  end.

Definition M (A : Type) : Type := World → World * (Exn + A).

Definition ret {A} (a : A) : M A := λ w, (w, inr a).
Definition throw {A} (e : Exn) : M A := λ w, (w, inl e).
Definition bind {A B} (m : M A) (k : A → M B) : M B :=
  λ w, match m w with
       | (w', inr a) => k a w'
       | (w', inl e) => (w', inl e)
       end.
Definition gets {A} (f : World → A) : M A := λ w, (w, inr (f w)).
Definition modify (f : World → World) : M unit := λ w, (f w, inr tt).
Definition lift {A} (r : Exn + A) : M A := λ w, (w, r).

Notation "'let!' x ':=' m 'in' k" := (bind m (λ x, k))
  (at level 10, x name, m at level 100, k at level 200, only parsing).
Notation "'run!' m 'in' k" := (bind m (λ _, k))
  (at level 10, m at level 100, k at level 200, only parsing).

(** ** Responses *)

Record Pagination := mkPagination {
  currentPage : Z;
  totalPages : Z;
  totalNotes : Z;
  hasNextPage : bool;
  hasPrevPage : bool
}.

(** A note after [populate('createdBy', 'name email')] and
    [populate('collaborators.userId', 'name email')]: references become the
    user document, or [null] when the user no longer exists. *)
Record PCollaborator := mkPCollaborator {
  p_userId : option User;
  p_permission : string
}.

Record PNote := mkPNote {
  p_id : ObjectId;
  p_title : string;
  p_content : string;
  p_createdBy : option User;
  p_collaborators : list PCollaborator;
  p_isArchived : bool;
  p_lastUpdated : Z
}.

(** [permissionInfo] of a successful [getNote]. *)
Record PermissionInfo := mkPermissionInfo {
  requestUserId : ObjectId;
  noteCreatorId : ObjectId;
  isCreatorInfo : bool;
  collaboratorInfo : option Collaborator
}.

(** [permissionInfo] of a refused [updateNote]. *)
Record DeniedInfo := mkDeniedInfo {
  userRole : string;
  deniedUserId : ObjectId;
  deniedCreatorId : ObjectId;
  deniedCollaborators : list Collaborator
}.

Inductive Body :=
| BMessage (message : string)
| BError (message : string) (error : string)
| BDenied (message : string) (info : DeniedInfo)
| BNote (n : PNote)
| BNoteView (n : PNote) (isOwnedByCurrentUser : bool)
    (userPermission : string) (info : option PermissionInfo)
| BPage (page : list PNote) (pagination : Pagination).

(** [res.status(s).json(body)]; a bare [res.json(body)] answers 200. *)
Record Response := mkResponse {
  status : Z;
  body : Body
}.

Definition json (b : Body) : Response := mkResponse 200 b.

(** The error taxonomy of the service, read off the HTTP status. *)
Inductive ErrorKind := ValidationError | NotFound | Forbidden | InternalError.

Definition error_kind (r : Response) : option ErrorKind :=
  if bool_decide (status r = 400) then Some ValidationError
  else if bool_decide (status r = 404) then Some NotFound
  else if bool_decide (status r = 403) then Some Forbidden
  else if bool_decide (status r = 500) then Some InternalError
  else None.

Definition succeeds (r : Response) : Prop := error_kind r = None.

(** [try { body } catch (error) { res.status(500).json({ message, error }) }] *)
Definition try_catch (m : M Response) (message : string) (w : World)
  : World * Response :=
  match m w with
  | (w', inr r) => (w', r)
  | (w', inl e) => (w', mkResponse 500 (BError message (exn_message e)))
  end.

(** ** Strings *)

(** The double-quote character of the notification messages. *)
Definition dquote : string := String "034"%char EmptyString.

(** White space as [String.prototype.trim] sees it, on ASCII: tab, line
    feed, vertical tab, form feed, carriage return and space. *)
Definition js_space (a : ascii) : bool :=
  let n := nat_of_ascii a in
  (Nat.leb 9 n && Nat.leb n 13) || Nat.eqb n 32.

Fixpoint trimStart (s : string) : string :=
  match s with
  | EmptyString => EmptyString
  | String a s' => if js_space a then trimStart s' else s
  end.

Definition trim (s : string) : string :=
  String.rev (trimStart (String.rev (trimStart s))).

(** ** The persistence layer *)

(** [new Note({ title, content, createdBy })]: the document as the request
    built it, before it was ever validated. *)
Record NoteDoc := mkNoteDoc {
  doc_title : option string;
  doc_content : option string;
  doc_createdBy : ObjectId
}.

(** Modelled from the spec: the schema of [models/Note.js] is not among the
    sources. The title is required and non-empty after trim. *)
Definition title_ok (t : option string) : bool :=
  match t with
  | None => false
  | Some s => negb (bool_decide (trim s = EmptyString))
  end.

(** [error.message] of the [ValidationError] Mongoose raises when the
    [required] validator of [title] fails on the model [Note]. *)
Definition validation_message : string :=
  "Note validation failed: title: Path `title` is required.".

(** Modelled from the spec: the schema defaults of [models/Note.js], which is
    not among the sources. A new note has no collaborators, is not archived
    and carries its creation time as [lastUpdated]; content is optional. *)
Definition Note_defaults (now : Z) (d : NoteDoc) (t : string) : Note :=
  mkNote t (default EmptyString (doc_content d)) (doc_createdBy d) [] false
    now.

Definition findById (id : ObjectId) : M (option Note) :=
  gets (λ w, notes w !! id).

(** [note.save()] on a new document: the schema validates, then the
    document is inserted under the [_id] the driver generated for it. *)
Definition save_new (oid : ObjectId) (now : Z) (d : NoteDoc) : M Note :=
  match doc_title d with
  | Some t =>
      if title_ok (Some t) then
        let! existing := findById oid in
        match existing with
        | Some _ => throw (MongoServerError "E11000 duplicate key error")
        | None =>
            let n := Note_defaults now d t in
            run! modify (set_notes <[oid := n]>) in
            ret n
        end
      else throw (ValidationFailed validation_message)
  | None => throw (ValidationFailed validation_message)
  end.

(** [note.save()] on a loaded document: the schema validates, then the
    stored document is replaced. *)
Definition save (id : ObjectId) (n : Note) : M unit :=
  if title_ok (Some (title n)) then modify (set_notes <[id := n]>)
  else throw (ValidationFailed validation_message).

(** [Note.findByIdAndUpdate(id, { $set: ... }, { new: true })] *)
Definition findByIdAndUpdate (id : ObjectId) (f : Note → Note)
  : M (option Note) :=
  let! found := findById id in
  match found with
  | None => ret None
  | Some n =>
      run! modify (set_notes <[id := f n]>) in
      ret (Some (f n))
  end.

(** [note.deleteOne()] *)
Definition deleteOne (id : ObjectId) : M unit :=
  modify (set_notes (delete id)).

(** [User.findById], as [populate] uses it. *)
Definition find_user (us : list User) (id : ObjectId) : option User :=
  snd <$> list_find (λ u, user_id u = id) us.

(** [User.findOne({ email })]: the first user with that email. *)
Definition lookup_email (us : list User) (email : string) : option User :=
  snd <$> list_find (λ u, user_email u = email) us.

Definition findOne (email : string) : M (option User) :=
  gets (λ w, lookup_email (users w) email).

Definition populate_collaborator (us : list User) (c : Collaborator)
  : PCollaborator :=
  mkPCollaborator (find_user us (userId c)) (permission c).

(** [.populate('createdBy', 'name email')
     .populate('collaborators.userId', 'name email')] *)
Definition populate (us : list User) (id : ObjectId) (n : Note) : PNote :=
  mkPNote id (title n) (content n) (find_user us (createdBy n))
    (populate_collaborator us <$> collaborators n) (isArchived n)
    (lastUpdated n).

Definition null_id : Exn :=
  TypeError "Cannot read properties of null (reading '_id')".

(** [ref._id] on a populated reference. *)
Definition deref (r : option User) : Exn + ObjectId :=
  match r with
  | Some u => inr (user_id u)
  | None => inl null_id
  end.

(** [note.collaborators.find(c => c.userId._id.equals(uid))] on a populated
    note. The entry found is an alias into the array, so its index comes
    with it. The callback throws on a reference that populated to [null]. *)
Fixpoint find_collaborator (us : list User) (uid : ObjectId)
    (cs : list Collaborator) : Exn + option (nat * Collaborator) :=
  match cs with
  | [] => inr None
  | c :: cs' =>
      match deref (find_user us (userId c)) with
      | inl e => inl e
      | inr id =>
          if bool_decide (id = uid) then inr (Some (0%nat, c))
          else match find_collaborator us uid cs' with
               | inr (Some (i, c')) => inr (Some (S i, c'))
               | r => r
               end
      end
  end.

(** [note.collaborators.map(c => ({ userId: c.userId._id.toString(),
    permission: c.permission }))] on a populated note. *)
Fixpoint map_collaborators (us : list User) (cs : list Collaborator)
  : Exn + list Collaborator :=
  match cs with
  | [] => inr []
  | c :: cs' =>
      match deref (find_user us (userId c)) with
      | inl e => inl e
      | inr id =>
          match map_collaborators us cs' with
          | inl e => inl e
          | inr l => inr (mkCollaborator id (permission c) :: l)
          end
      end
  end.

(** ** The socket layer *)

(** The controller's side of [notifyCollaborators(noteId, message,
    excludedUserId)]: the call is handed to the socket layer and the handler
    goes on. *)
Definition notifyCollaborators (noteId : ObjectId) (message : string)
    (excludedUserId : ObjectId) : M unit :=
  modify (push_outbox (mkNotify noteId message excludedUserId)).

(** Modelled from the spec: [socket/handler.js] is not among the sources.
    [notify(noteId, message, excludedUserId)] pushes to all current watchers
    of [noteId] except [excludedUserId]. *)
Definition recipients (watchers : ObjectId → list ObjectId) (c : NotifyCall)
  : list ObjectId :=
  filter (λ x, x ≠ notify_excluded c) (watchers (notify_note c)).

(** ** The handlers *)

(** [req.query] of [GET /notes]. For [page] and [limit] the field holds what
    [parseInt] makes of the parameter, [None] standing for [NaN] (parameter
    absent or not a number). *)
Record ListQuery := mkListQuery {
  q_page : option Z;
  q_limit : option Z;
  q_showArchived : option string
}.

(** [parseInt(x) || d]: [NaN] and [0] are falsy. *)
Definition parseInt_or (x : option Z) (d : Z) : Z :=
  match x with
  | None => d
  | Some n => if bool_decide (n = 0) then d else n
  end.

(** The filter [{ $or: [{ createdBy }, { 'collaborators.userId' }],
    isArchived }]. *)
Definition matches (uid : ObjectId) (showArchived : bool) (n : Note) : bool :=
  (bool_decide (createdBy n = uid)
   || bool_decide (uid ∈ userId <$> collaborators n))
  && bool_decide (isArchived n = showArchived).

Definition find_notes (uid : ObjectId) (showArchived : bool) (w : World)
  : list (ObjectId * Note) :=
  filter (λ kn, matches uid showArchived kn.2 = true) (map_to_list (notes w)).

(** [.sort({ lastUpdated: -1 })] *)
Definition newest_first (a b : ObjectId * Note) : Prop :=
  lastUpdated b.2 ≤ lastUpdated a.2.

Global Instance newest_first_dec : RelDecision newest_first.
Proof. intros a b. unfold newest_first. apply _. Defined.

(** [.skip(s).limit(l)]: the server refuses a negative skip; the driver
    reads a negative limit as its absolute value. *)
Definition skip_limit {A} (s l : Z) (ns : list A) : Exn + list A :=
  if bool_decide (s < 0)
  then inl (MongoServerError "skip value must be non-negative")
  else inr (take (Z.to_nat (Z.abs l)) (drop (Z.to_nat s) ns)).

(** [Math.ceil(a / b)] for integers [a] and [b ≠ 0]. *)
Definition ceil_div (a b : Z) : Z := - ((- a) `div` b).

Definition getNotes (u : User) (q : ListQuery) : World → World * Response :=
  try_catch (
    let uid := user_id u in
    let page := parseInt_or (q_page q) 1 in
    let limit := parseInt_or (q_limit q) 10 in
    let showArchived := bool_decide (q_showArchived q = Some "true") in
    let! found := gets (find_notes uid showArchived) in
    let hasNotes := negb (bool_decide (found = [])) in
    if negb hasNotes && bool_decide (page = 1) then
      ret (json (BPage [] (mkPagination 1 0 0 false false)))
    else
      let totalNotes := Z.of_nat (length found) in
      let totalPages :=
        let c := ceil_div totalNotes limit in
        if bool_decide (c = 0) then 1 else c in
      let! shown :=
        lift (skip_limit ((page - 1) * limit) limit
                (merge_sort newest_first found)) in
      let! us := gets users in
      ret (json (BPage (uncurry (populate us) <$> shown)
                   (mkPagination page totalPages totalNotes
                      (bool_decide (page < totalPages))
                      (bool_decide (page > 1)))))
  ) "Error fetching notes".

Definition getNote (u : User) (id : ObjectId) : World → World * Response :=
  try_catch (
    let! found := findById id in
    match found with
    | None => ret (mkResponse 404 (BMessage "Note not found"))
    | Some note =>
        let! us := gets users in
        let! creator := lift (deref (find_user us (createdBy note))) in
        let isCreator := bool_decide (creator = user_id u) in
        let! collaborator :=
          lift (find_collaborator us (user_id u) (collaborators note)) in
        let hasAccess := isCreator || bool_decide (is_Some collaborator) in
        if negb hasAccess then
          ret (mkResponse 403 (BMessage "Access denied"))
        else
          let userPermission :=
            if isCreator then "write"
            else match collaborator with
                 | Some (_, c) => permission c
                 | None => "read"
                 end in
          ret (json (BNoteView (populate us id note) isCreator userPermission
                       (Some (mkPermissionInfo (user_id u) creator isCreator
                                (snd <$> collaborator)))))
    end
  ) "Error fetching note".

Definition createNote (oid : ObjectId) (now : Z) (u : User)
    (title content : option string) : World → World * Response :=
  try_catch (
    let note := mkNoteDoc title content (user_id u) in
    let! saved := save_new oid now note in
    let! us := gets users in
    ret (mkResponse 201 (BNote (populate us oid saved)))
  ) "Error creating note".

(** [{ $set: updateFields }]: only the fields that are not [undefined], and
    always [lastUpdated]. *)
Definition updateFields (new_title new_content : option string) (now : Z)
    (n : Note) : Note :=
  mkNote (default (title n) new_title)
    (default (content n) new_content) (createdBy n) (collaborators n)
    (isArchived n) now.

(** [`Note "${updatedNote.title}" was updated by ${req.user.name}`] *)
Definition updated_message (u : User) (n : Note) : string :=
  "Note " +:+ dquote +:+ title n +:+ dquote +:+ " was updated by "
  +:+ user_name u.

Definition updateNote (now : Z) (u : User) (id : ObjectId)
    (new_title new_content : option string) : World → World * Response :=
  try_catch (
    let! found := findById id in
    match found with
    | None => ret (mkResponse 404 (BMessage "Note not found"))
    | Some note =>
        let! us := gets users in
        let! creator := lift (deref (find_user us (createdBy note))) in
        let isCreator := bool_decide (creator = user_id u) in
        let! collaborator :=
          lift (find_collaborator us (user_id u) (collaborators note)) in
        let canWrite :=
          isCreator
          || match collaborator with
             | Some (_, c) => bool_decide (permission c = "write")
             | None => false
             end in
        if negb canWrite then
          let! cs := lift (map_collaborators us (collaborators note)) in
          ret (mkResponse 403
                 (BDenied "Write access denied"
                    (mkDeniedInfo (if isCreator then "creator" else "collaborator")
                       (user_id u) creator cs)))
        else
          let! updated :=
            findByIdAndUpdate id (updateFields new_title new_content now) in
          match updated with
          | None =>
              throw (TypeError
                       "Cannot read properties of null (reading 'toObject')")
          | Some updatedNote =>
              let! owner :=
                lift (deref (find_user us (createdBy updatedNote))) in
              let isOwnedByCurrentUser := bool_decide (owner = user_id u) in
              let userPermission :=
                if isOwnedByCurrentUser then "write"
                else match collaborator with
                     | Some (_, c) => permission c
                     | None => "read"
                     end in
              run! notifyCollaborators id (updated_message u updatedNote)
                     (user_id u) in
              ret (json (BNoteView (populate us id updatedNote)
                           isOwnedByCurrentUser userPermission None))
          end
    end
  ) "Error updating note".

Definition deleteNote (u : User) (id : ObjectId) : World → World * Response :=
  try_catch (
    let! found := findById id in
    match found with
    | None => ret (mkResponse 404 (BMessage "Note not found"))
    | Some note =>
        if negb (bool_decide (createdBy note = user_id u)) then
          ret (mkResponse 403 (BMessage "Only the creator can delete the note"))
        else
          run! deleteOne id in
          ret (json (BMessage "Note deleted successfully"))
    end
  ) "Error deleting note".

Definition set_collaborators (cs : list Collaborator) (n : Note) : Note :=
  mkNote (title n) (content n) (createdBy n) cs (isArchived n) (lastUpdated n).

(** The upsert of [shareNote]: the entry [find] returned is overwritten
    where it stands, otherwise [{ userId, permission }] is pushed. *)
Definition upsert (existing : option (nat * Collaborator)) (target : ObjectId)
    (perm : string) (cs : list Collaborator) : list Collaborator :=
  match existing with
  | Some (i, c) => <[i := mkCollaborator (userId c) perm]> cs
  | None => cs ++ [mkCollaborator target perm]
  end.

(** [`You were given ${permission} access to "${note.title}" by
    ${req.user.name}`] *)
Definition shared_message (u : User) (perm : string) (n : Note) : string :=
  "You were given " +:+ perm +:+ " access to " +:+ dquote +:+ title n
  +:+ dquote +:+ " by " +:+ user_name u.

Definition shareNote (u : User) (id : ObjectId) (email perm : string)
  : World → World * Response :=
  try_catch (
    if negb (bool_decide (perm ∈ ["read"; "write"])) then
      ret (mkResponse 400 (BMessage "Invalid permission type"))
    else
      let! found := findById id in
      match found with
      | None => ret (mkResponse 404 (BMessage "Note not found"))
      | Some note =>
          let! us := gets users in
          let! creator := lift (deref (find_user us (createdBy note))) in
          if negb (bool_decide (creator = user_id u)) then
            ret (mkResponse 403
                   (BMessage "Only the creator can share the note"))
          else
            let! target := findOne email in
            match target with
            | None => ret (mkResponse 404 (BMessage "User not found"))
            | Some collaborator =>
                run! lift (map_collaborators us (collaborators note)) in
                let! existingCollaborator :=
                  lift (find_collaborator us (user_id collaborator)
                          (collaborators note)) in
                let shared :=
                  set_collaborators
                    (upsert existingCollaborator (user_id collaborator) perm
                       (collaborators note)) note in
                run! save id shared in
                run! notifyCollaborators id (shared_message u perm shared)
                       (user_id collaborator) in
                ret (json (BNote (populate us id shared)))
            end
      end
  ) "Error sharing note".

(** ** The service as a transition system *)

(** One authenticated request, together with what the environment supplies
    to the handler: the [_id] the driver generates and the clock. *)
Inductive Call :=
| GetNotes (q : ListQuery)
| GetNote (id : ObjectId)
| CreateNote (oid : ObjectId) (now : Z) (new_title new_content : option string)
| UpdateNote (now : Z) (id : ObjectId) (new_title new_content : option string)
| DeleteNote (id : ObjectId)
| ShareNote (id : ObjectId) (email perm : string).

Definition handle (u : User) (c : Call) : World → World * Response :=
  match c with
  | GetNotes q => getNotes u q
  | GetNote id => getNote u id
  | CreateNote oid now t c => createNote oid now u t c
  | UpdateNote now id t c => updateNote now u id t c
  | DeleteNote id => deleteNote u id
  | ShareNote id email perm => shareNote u id email perm
  end.

(** The worlds the service can be in: it starts with no note, and every
    request comes from a user of the [User] collection. [allowed] restricts
    the calls that are considered. *)
Inductive reachable_by (allowed : User → Call → World → Prop)
    (us : list User) : World → Prop :=
| reachable_init : reachable_by allowed us (mkWorld ∅ us [])
| reachable_step w u c :
    reachable_by allowed us w → u ∈ us → allowed u c w →
    reachable_by allowed us (handle u c w).1.

Definition reachable : list User → World → Prop :=
  reachable_by (λ _ _ _, True).

(** ** Roles and invariants *)

Definition is_owner (u : User) (n : Note) : Prop := createdBy n = user_id u.

Definition is_collaborator (u : User) (n : Note) : Prop :=
  ∃ c, c ∈ collaborators n ∧ userId c = user_id u.

Definition is_write_collaborator (u : User) (n : Note) : Prop :=
  ∃ c, c ∈ collaborators n ∧ userId c = user_id u ∧ permission c = "write".

Definition can_read (u : User) (n : Note) : Prop :=
  is_owner u n ∨ is_collaborator u n.

Definition can_write (u : User) (n : Note) : Prop :=
  is_owner u n ∨ is_write_collaborator u n.

(** How many entries of a collaborators list belong to a user. *)
Definition entries_of (uid : ObjectId) (cs : list Collaborator) : nat :=
  length (filter (λ c, userId c = uid) cs).

(** Every reference of a collaborators list populates. *)
Definition resolved (us : list User) (cs : list Collaborator) : Prop :=
  Forall (λ c, is_Some (find_user us (userId c))) cs.

(** What holds of every stored note, whatever the requests were: its
    references populate and no user has two collaborator entries. *)
Definition note_wf (us : list User) (n : Note) : Prop :=
  is_Some (find_user us (createdBy n))
  ∧ resolved us (collaborators n)
  ∧ NoDup (userId <$> collaborators n).

Definition wf (us : list User) (w : World) : Prop :=
  users w = us ∧ map_Forall (λ _ n, note_wf us n) (notes w).

(** The owner is not an entry of the note's own collaborators list. *)
Definition owner_not_collaborator (w : World) : Prop :=
  map_Forall (λ _ n, createdBy n ∉ userId <$> collaborators n) (notes w).

(** A [shareNote] call whose email resolves to the requester's own
    account. *)
Definition self_share (u : User) (c : Call) (w : World) : Prop :=
  match c with
  | ShareNote _ email _ =>
      ∃ v, lookup_email (users w) email = Some v ∧ user_id v = user_id u
  | _ => False
  end.

Definition no_self_share (u : User) (c : Call) (w : World) : Prop :=
  ¬ self_share u c w.

(** The user owns or collaborates on no note with the given archived
    flag. *)
Definition no_matching_note (u : User) (showArchived : bool) (w : World)
  : Prop :=
  map_Forall (λ _ n, isArchived n = showArchived →
                     createdBy n ≠ user_id u
                     ∧ user_id u ∉ userId <$> collaborators n) (notes w).

Definition zero_result : Body := BPage [] (mkPagination 1 0 0 false false).

(** ** A running example *)

Module Demo.

Definition alice : User := mkUser 1 "Alice" "alice@example.org".
Definition bob : User := mkUser 2 "Bob" "bob@example.org".
Definition carol : User := mkUser 3 "Carol" "carol@example.org".

Definition everyone : list User := [alice; bob; carol].

Definition empty : World := mkWorld ∅ everyone [].

(** Alice creates the note "Trip Plan" ... *)
Definition created : World :=
  (handle alice (CreateNote 10 1000 (Some "Trip Plan") None) empty).1.

(** ... shares it with Bob, read only ... *)
Definition shared : World :=
  (handle alice (ShareNote 10 "bob@example.org" "read") created).1.

(** ... and with Carol, who may write. *)
Definition shared_twice : World :=
  (handle alice (ShareNote 10 "carol@example.org" "write") shared).1.

(** Alice shares her note with her own address. *)
Definition self_shared : World :=
  (handle alice (ShareNote 10 "alice@example.org" "read") created).1.

Definition trip_plan : Note := mkNote "Trip Plan" EmptyString 1 [] false 1000.

Definition trip_plan_shared : Note :=
  mkNote "Trip Plan" EmptyString 1
    [mkCollaborator 2 "read"; mkCollaborator 3 "write"] false 1000.

(** Everybody is watching note 10. *)
Definition watchers (noteId : ObjectId) : list ObjectId := [1; 2; 3]%N.

End Demo.

(** ** Reading a response *)

(** The [notes] of a [{ notes, pagination }] body. *)
Definition listed (r : Response) : list PNote :=
  match body r with
  | BPage page _ => page
  | _ => []
  end.

(** The [pagination] of a [{ notes, pagination }] body. *)
Definition pagination_of (r : Response) : option Pagination :=
  match body r with
  | BPage _ p => Some p
  | _ => None
  end.

(** [GET /notes?page=p&limit=l&showArchived=a] *)
Definition page_query (p l : Z) (a : option string) : ListQuery :=
  mkListQuery (Some p) (Some l) a.

(** The notes of pages [1 .. k], one page after the other. *)
Definition pages_upto (u : User) (l : Z) (a : option string) (w : World)
    (k : nat) : list PNote :=
  mjoin ((λ p, listed (getNotes u (page_query (Z.of_nat p) l a) w).2)
           <$> seq 1 k).

(** No two of the notes carry the same [lastUpdated]. *)
Definition distinct_times (ns : list (ObjectId * Note)) : Prop :=
  NoDup ((λ kn, lastUpdated kn.2) <$> ns).

(** What [.sort({ lastUpdated: -1 })] may hand back for the notes a query
    matches: the same notes, newest first. Among notes of equal
    [lastUpdated] the order is the store's choice, and each query is free
    to choose again. *)
Definition sort_result (found s : list (ObjectId * Note)) : Prop :=
  s ≡ₚ found ∧ StronglySorted newest_first s.

(** Page [p] of size [l], cut by [.skip((p - 1) * l).limit(l)] from what
    the sort handed back, and populated. *)
Definition page_slice (us : list User) (p : nat) (l : Z)
    (s : list (ObjectId * Note)) : list PNote :=
  uncurry (populate us)
  <$> take (Z.to_nat l) (drop ((p - 1) * Z.to_nat l) s).

(** Alice also keeps a packing list, created after the trip plan was
    shared with Bob. *)
Definition packing : World :=
  (handle Demo.alice (CreateNote 11 3000 (Some "Packing list") None)
     Demo.shared).1.

(** Newest first, as the client sees it. *)
Definition p_newest_first (a b : PNote) : Prop :=
  p_lastUpdated b ≤ p_lastUpdated a.

(** Every stored permission is one of the two the service knows. *)
Definition permissions_known (w : World) : Prop :=
  map_Forall (λ _ n, Forall (λ c, permission c ∈ ["read"; "write"])
                       (collaborators n)) (notes w).

(** Calls that may hand something to the socket layer about note [id]. *)
Definition notifies (c : Call) (id : ObjectId) : Prop :=
  match c with
  | UpdateNote _ id' _ _ | ShareNote id' _ _ => id' = id
  | _ => False
  end.

(** ** The create form of the dashboard

    [frontend/src/pages/Dashboard.jsx], [handleCreateNote]: the state the
    handler reads is the one of the render it was created in; what it leaves
    is the result of its setters. What it does to the outside is recorded in
    the order it happens. *)
Module Dashboard.

(** A JavaScript string: its UTF-16 code units. *)
Abbreviation JSString := (list N).

(** A literal of the source, which are all ASCII. *)
Definition lit (s : string) : JSString :=
  N_of_ascii <$> list_ascii_of_string s.

(** The code units [String.prototype.trim] strips: WhiteSpace (tab, vertical
    tab, form feed, space, no-break space, the byte order mark and the space
    separators of Unicode) and LineTerminator (line feed, carriage return,
    line separator, paragraph separator). *)
Definition whitespace (ch : N) : bool :=
  bool_decide
    (ch ∈ [9; 10; 11; 12; 13; 32; 160; 5760; 8192; 8193; 8194; 8195; 8196;
           8197; 8198; 8199; 8200; 8201; 8202; 8232; 8233; 8239; 8287; 12288;
           65279]%N).

Fixpoint trimStart (s : JSString) : JSString :=
  match s with
  | [] => []
  | ch :: s' => if whitespace ch then trimStart s' else s
  end.

(** [s.trim()] *)
Definition trim (s : JSString) : JSString :=
  reverse (trimStart (reverse (trimStart s))).

Record Form := mkForm {
  showCreateModal : bool;
  newNoteTitle : JSString;
  newNoteContent : JSString;
  isSubmitting : bool
}.

Inductive Effect :=
| ToastError (msg : JSString)
| ToastSuccess (msg : JSString)
| ApiCreateNote (title content : JSString)
| DispatchAddNote (id : ObjectId)
| Navigate (id : ObjectId).

(** [x || d] on strings: the empty string is falsy. *)
Definition or_else (x d : JSString) : JSString :=
  if bool_decide (x = []) then d else x.

(** The request either resolves with the created note, of which the handler
    reads [_id], or rejects with an error whose
    [error.response?.data?.message] may be undefined. *)
Definition ApiResult : Type := option JSString + ObjectId.

Definition handleCreateNote (api : JSString → JSString → ApiResult)
    (f : Form) : Form * list Effect :=
  if isSubmitting f then (f, [])
  else if bool_decide (trim (newNoteTitle f) = []) then
    (f, [ToastError (lit "Title is required")])
  else
    let title := newNoteTitle f in
    let content := or_else (newNoteContent f) (lit "New note") in
    match api title content with
    | inr id =>
        (mkForm false [] [] false,
         [ApiCreateNote title content; DispatchAddNote id;
          ToastSuccess (lit "Note created successfully"); Navigate id])
    | inl message =>
        (mkForm (showCreateModal f) [] [] false,
         [ApiCreateNote title content;
          ToastError (or_else (default [] message)
                        (lit "Error creating note"))])
    end.

(** A server that always refuses, without a message. *)
Definition refusing (title content : JSString) : ApiResult := inl None.

(** A server that accepts and stores the note under id 7. *)
Definition accepting (title content : JSString) : ApiResult := inr 7%N.

End Dashboard.

(** * Verification *)

(** ** Populating references *)

Lemma find_user_id us id u : find_user us id = Some u → user_id u = id.
Proof.
  unfold find_user. intros H.
  apply fmap_Some in H as ([i v] & Hf & ->).
  apply list_find_Some in Hf as (_ & Hid & _). exact Hid.
Qed.

Lemma find_user_elem us u : u ∈ us → is_Some (find_user us (user_id u)).
Proof.
  intros Hu. unfold find_user. rewrite fmap_is_Some.
  by eapply list_find_elem_of.
Qed.

Lemma lookup_email_elem us email v : lookup_email us email = Some v → v ∈ us.
Proof.
  unfold lookup_email. intros H.
  apply fmap_Some in H as ([i x] & Hf & ->).
  apply list_find_Some in Hf as (Hl & _ & _).
  by eapply list_elem_of_lookup_2.
Qed.

Lemma deref_inr us id x : deref (find_user us id) = inr x → x = id.
Proof.
  destruct (find_user us id) as [u|] eqn:Hu; [|done].
  simpl. intros [= <-]. by eapply find_user_id.
Qed.

Lemma deref_inr_Some us id x :
  deref (find_user us id) = inr x → is_Some (find_user us id).
Proof. destruct (find_user us id); [eauto|done]. Qed.

Lemma deref_find_user us id :
  is_Some (find_user us id) → deref (find_user us id) = inr id.
Proof.
  intros [u Hu]. rewrite Hu. simpl. by rewrite (find_user_id _ _ _ Hu).
Qed.

(** When [find] returns at all, it returns the first entry of the user. *)
Lemma find_collaborator_inr us uid cs r :
  find_collaborator us uid cs = inr r →
  r = list_find (λ c, userId c = uid) cs.
Proof.
  revert r. induction cs as [|c cs IH]; intros r; simpl.
  { by intros [= <-]. }
  destruct (deref (find_user us (userId c))) as [e|x] eqn:Hx; [done|].
  apply deref_inr in Hx as ->.
  unfold list_find; simpl; fold (list_find (λ c, userId c = uid) cs).
  case_bool_decide as Hc.
  - rewrite decide_True by done. by intros [= <-].
  - rewrite decide_False by done.
    destruct (find_collaborator us uid cs) as [e|[[i c']|]]; [done|..];
      intros [= <-]; by rewrite <- (IH _ eq_refl).
Qed.

Lemma find_collaborator_resolved us uid cs :
  resolved us cs →
  find_collaborator us uid cs = inr (list_find (λ c, userId c = uid) cs).
Proof.
  intros Hres.
  destruct (find_collaborator us uid cs) as [e|r] eqn:Hf.
  - exfalso. induction Hres as [|c cs Hc Hcs IH]; [done|].
    simpl in Hf. rewrite (deref_find_user _ _ Hc) in Hf.
    case_bool_decide; [done|].
    destruct (find_collaborator us uid cs) as [e'|[[i c']|]]; [|done..].
    by eapply IH.
  - by rewrite (find_collaborator_inr _ _ _ _ Hf).
Qed.

Lemma map_collaborators_inr us cs l :
  map_collaborators us cs = inr l → l = cs ∧ resolved us cs.
Proof.
  revert l. induction cs as [|c cs IH]; intros l; simpl.
  { intros [= <-]. split; [done|constructor]. }
  destruct (deref (find_user us (userId c))) as [e|x] eqn:Hx; [done|].
  destruct (map_collaborators us cs) as [e|l'] eqn:Hm; [done|].
  intros [= <-]. destruct (IH _ eq_refl) as [-> Hres].
  pose proof (deref_inr_Some _ _ _ Hx) as Hs.
  apply deref_inr in Hx as ->.
  split; [by destruct c|by constructor].
Qed.

Lemma map_collaborators_resolved us cs :
  resolved us cs → map_collaborators us cs = inr cs.
Proof.
  induction 1 as [|c cs Hc Hcs IH]; [done|].
  simpl. rewrite (deref_find_user _ _ Hc), IH. by destruct c.
Qed.

(** ** Collaborator lists *)

Lemma first_entry_Some uid cs i c :
  list_find (λ c, userId c = uid) cs = Some (i, c) →
  cs !! i = Some c ∧ userId c = uid.
Proof. intros H. apply list_find_Some in H as (Hi & Hc & _). by split. Qed.

Lemma first_entry_None uid cs :
  list_find (λ c, userId c = uid) cs = None ↔ uid ∉ userId <$> cs.
Proof.
  rewrite list_find_None, Forall_forall, list_elem_of_fmap. split.
  - intros H (c & -> & Hc). by apply (H c).
  - intros H c Hc Heq. apply H. by exists c.
Qed.

Lemma NoDup_entry_unique cs c c' :
  NoDup (userId <$> cs) → c ∈ cs → c' ∈ cs → userId c = userId c' → c = c'.
Proof.
  intros Hnd [i Hi]%list_elem_of_lookup [j Hj]%list_elem_of_lookup Heq.
  assert (i = j) as ->.
  { eapply NoDup_lookup; [exact Hnd|..]; rewrite list_lookup_fmap.
    - by rewrite Hi.
    - rewrite Hj. simpl. by rewrite Heq. }
  congruence.
Qed.

Lemma entries_of_absent uid cs :
  uid ∉ userId <$> cs → entries_of uid cs = 0%nat.
Proof.
  unfold entries_of. induction cs as [|c cs IH]; [done|].
  rewrite fmap_cons, not_elem_of_cons. intros [Hne Hnin].
  rewrite filter_cons_False by done. by apply IH.
Qed.

Lemma entries_of_NoDup uid cs :
  NoDup (userId <$> cs) → uid ∈ userId <$> cs → entries_of uid cs = 1%nat.
Proof.
  induction cs as [|c cs IH]; [by intros _ ?%elem_of_nil|].
  rewrite fmap_cons, NoDup_cons, elem_of_cons. intros [Hc Hnd] Hin.
  unfold entries_of. destruct (decide (userId c = uid)) as [Heq|Hne].
  - rewrite filter_cons_True by done. simpl. f_equal.
    apply entries_of_absent. by rewrite <- Heq.
  - rewrite filter_cons_False by done. apply IH; [done|].
    destruct Hin as [->|Hin]; done.
Qed.

(** The upsert keeps the user ids of the entries it does not append. *)
Lemma upsert_existing_ids uid perm cs i c :
  list_find (λ c, userId c = uid) cs = Some (i, c) →
  userId <$> upsert (Some (i, c)) uid perm cs = userId <$> cs.
Proof.
  intros [Hi Hc]%first_entry_Some. simpl.
  rewrite list_fmap_insert. simpl. apply list_insert_id.
  by rewrite list_lookup_fmap, Hi.
Qed.

Lemma upsert_ids uid perm cs :
  userId <$> upsert (list_find (λ c, userId c = uid) cs) uid perm cs
  = if decide (uid ∈ userId <$> cs) then userId <$> cs
    else ((userId <$> cs) ++ [uid])%list.
Proof.
  destruct (list_find _ cs) as [[i c]|] eqn:Hf.
  - rewrite (upsert_existing_ids _ _ _ _ _ Hf).
    rewrite decide_True; [done|].
    apply first_entry_Some in Hf as [Hi <-].
    apply list_elem_of_fmap. eauto using list_elem_of_lookup_2.
  - apply first_entry_None in Hf. rewrite decide_False by done.
    simpl. by rewrite fmap_app.
Qed.

Lemma upsert_NoDup uid perm cs :
  NoDup (userId <$> cs) →
  NoDup (userId <$> upsert (list_find (λ c, userId c = uid) cs) uid perm cs).
Proof.
  intros Hnd. rewrite upsert_ids. case_decide; [done|].
  apply NoDup_app. split_and!; [done| |apply NoDup_singleton].
  intros x Hx ->%list_elem_of_singleton. done.
Qed.

Lemma upsert_resolved us uid perm cs :
  is_Some (find_user us uid) → resolved us cs →
  resolved us (upsert (list_find (λ c, userId c = uid) cs) uid perm cs).
Proof.
  intros Hu Hres. destruct (list_find _ cs) as [[i c]|] eqn:Hf; simpl.
  - apply first_entry_Some in Hf as [Hi Hc].
    apply Forall_insert; [done|]. simpl.
    eapply (Forall_lookup_1 _ _ _ _ Hres Hi).
  - apply Forall_app. split; [done|]. by constructor.
Qed.

(** ** What each handler does to the world *)

Ltac run_handler :=
  repeat progress
    (unfold try_catch, bind, findById, findByIdAndUpdate, findOne, save,
       save_new, deleteOne, notifyCollaborators, gets, modify, lift, ret,
       throw;
     simpl).

Lemma getNotes_world u q w : (getNotes u q w).1 = w.
Proof.
  unfold getNotes. run_handler.
  destruct (negb _ && _); [done|].
  by destruct (skip_limit _ _ _).
Qed.

Lemma getNote_world u id w : (getNote u id w).1 = w.
Proof.
  unfold getNote. run_handler.
  destruct (notes w !! id) as [n|]; [|done]. simpl.
  destruct (deref _) as [e|x]; [done|]. simpl.
  destruct (find_collaborator _ _ _) as [e|r]; [done|]. simpl.
  by destruct (negb _).
Qed.

Lemma createNote_cases oid now u t c w :
  (createNote oid now u t c w).1 = w
  ∨ ∃ s, t = Some s ∧ notes w !! oid = None
      ∧ (createNote oid now u t c w).1
        = set_notes <[oid := mkNote s (default EmptyString c) (user_id u) []
                                false now]> w.
Proof.
  unfold createNote. run_handler.
  destruct t as [s|]; [|by left]. simpl.
  destruct (negb _); [|by left]. run_handler.
  destruct (notes w !! oid) eqn:Hoid; [by left|].
  right. by exists s.
Qed.

Lemma deleteNote_cases u id w :
  (deleteNote u id w).1 = w
  ∨ (deleteNote u id w).1 = set_notes (delete id) w.
Proof.
  unfold deleteNote. run_handler.
  destruct (notes w !! id) as [n|]; [|by left]. simpl.
  destruct (negb _); [by left|by right].
Qed.

Lemma updateNote_cases now u id t c w :
  (updateNote now u id t c w).1 = w
   ∧ is_Some (error_kind (updateNote now u id t c w).2)
  ∨ ∃ n, notes w !! id = Some n
      ∧ status (updateNote now u id t c w).2 = 200
      ∧ (updateNote now u id t c w).1
        = push_outbox
            (mkNotify id (updated_message u (updateFields t c now n))
               (user_id u))
            (set_notes <[id := updateFields t c now n]> w).
Proof.
  unfold updateNote. run_handler.
  destruct (notes w !! id) as [n|] eqn:Hn; simpl; [|left; eauto].
  destruct (deref _) as [e|x] eqn:Hx; simpl; [left; eauto|].
  destruct (find_collaborator _ _ _) as [e|r]; simpl; [left; eauto|].
  destruct (negb _); simpl.
  { destruct (map_collaborators _ _); simpl; left; eauto. }
  rewrite Hn. simpl. rewrite Hx. simpl.
  right. by exists n.
Qed.

Lemma shareNote_cases u id email perm w :
  (shareNote u id email perm w).1 = w
   ∧ is_Some (error_kind (shareNote u id email perm w).2)
  ∨ ∃ n v,
      notes w !! id = Some n
      ∧ perm ∈ ["read"; "write"]
      ∧ createdBy n = user_id u
      ∧ is_Some (find_user (users w) (createdBy n))
      ∧ resolved (users w) (collaborators n)
      ∧ lookup_email (users w) email = Some v
      ∧ title_ok (Some (title n)) = true
      ∧ (shareNote u id email perm w).2
        = json (BNote
                  (populate (users w) id
                     (set_collaborators
                        (upsert
                           (list_find (λ c, userId c = user_id v)
                              (collaborators n))
                           (user_id v) perm (collaborators n)) n)))
      ∧ (shareNote u id email perm w).1
        = push_outbox
            (mkNotify id (shared_message u perm n) (user_id v))
            (set_notes
               <[id := set_collaborators
                         (upsert
                            (list_find (λ c, userId c = user_id v)
                               (collaborators n))
                            (user_id v) perm (collaborators n)) n]> w).
Proof.
  unfold shareNote. run_handler.
  case_bool_decide as Hperm; run_handler; [|left; eauto].
  destruct (notes w !! id) as [n|] eqn:Hn; run_handler; [|left; eauto].
  destruct (deref _) as [e|x] eqn:Hx; run_handler; [left; eauto|].
  pose proof (deref_inr_Some _ _ _ Hx) as Hcreator.
  apply deref_inr in Hx as ->.
  case_bool_decide as Hown; run_handler; [|left; eauto].
  destruct (lookup_email _ _) as [v|] eqn:Hv; run_handler; [|left; eauto].
  destruct (map_collaborators _ _) as [e|l] eqn:Hmap; run_handler;
    [left; eauto|].
  apply map_collaborators_inr in Hmap as [-> Hres].
  rewrite (find_collaborator_resolved _ _ _ Hres). run_handler.
  destruct (negb _) eqn:Htitle; run_handler; [|left; eauto].
  right. exists n, v. by split_and!.
Qed.

(** ** The invariant of the store *)

Lemma note_wf_updateFields us t c now n :
  note_wf us n → note_wf us (updateFields t c now n).
Proof. done. Qed.

Lemma handle_users u c w : users (handle u c w).1 = users w.
Proof.
  destruct c as [q|id|oid now t c|now id t c|id|id email perm]; simpl.
  - by rewrite getNotes_world.
  - by rewrite getNote_world.
  - destruct (createNote_cases oid now u t c w) as [->|(s & _ & _ & ->)]; done.
  - destruct (updateNote_cases now u id t c w) as [[-> _]|(n & _ & _ & ->)];
      done.
  - destruct (deleteNote_cases u id w) as [->| ->]; done.
  - destruct (shareNote_cases u id email perm w)
      as [[-> _]|(n & v & _ & _ & _ & _ & _ & _ & _ & _ & ->)]; done.
Qed.

Lemma handle_wf us u c w : u ∈ us → wf us w → wf us (handle u c w).1.
Proof.
  intros Hu [Hus Hwf]. split; [by rewrite handle_users|].
  destruct c as [q|id|oid now t c|now id t c|id|id email perm]; simpl.
  - by rewrite getNotes_world.
  - by rewrite getNote_world.
  - destruct (createNote_cases oid now u t c w) as [->|(s & _ & _ & ->)];
      [done|]. simpl.
    apply map_Forall_insert_2; [|done].
    split_and!; simpl; [by apply find_user_elem|constructor|constructor].
  - destruct (updateNote_cases now u id t c w) as [[-> _]|(n & Hn & _ & ->)];
      [done|]. simpl.
    apply map_Forall_insert_2; [|done].
    apply note_wf_updateFields. by eapply Hwf.
  - destruct (deleteNote_cases u id w) as [->| ->]; [done|]. simpl.
    by apply map_Forall_delete.
  - destruct (shareNote_cases u id email perm w)
      as [[-> _]|(n & v & Hn & _ & _ & _ & _ & Hv & _ & _ & ->)]; [done|].
    simpl.
    apply map_Forall_insert_2; [|done].
    destruct (Hwf _ _ Hn) as (Hc & Hres & Hnd). rewrite Hus in Hv.
    split_and!; simpl; [done| |by apply upsert_NoDup].
    apply upsert_resolved; [|done].
    apply find_user_elem. by eapply lookup_email_elem.
Qed.

Lemma reachable_by_wf allowed us w : reachable_by allowed us w → wf us w.
Proof.
  induction 1 as [|w u c Hw IH Hu _].
  - split; [done|]. apply map_Forall_empty.
  - by apply handle_wf.
Qed.

Lemma reachable_note_wf us w id n :
  reachable us w → notes w !! id = Some n → note_wf (users w) n.
Proof.
  intros [Hus Hwf]%reachable_by_wf Hn. rewrite Hus. by eapply Hwf.
Qed.

(** ** Who may read, write and delete *)

Lemma is_collaborator_find u n :
  is_collaborator u n
  ↔ is_Some (list_find (λ c, userId c = user_id u) (collaborators n)).
Proof.
  split.
  - intros (c & Hc & Hid). by eapply list_find_elem_of.
  - intros [[i c] [Hi Hc]%first_entry_Some].
    exists c. eauto using list_elem_of_lookup_2.
Qed.

Lemma is_write_collaborator_find u n :
  NoDup (userId <$> collaborators n) →
  is_write_collaborator u n
  ↔ ∃ i c, list_find (λ c, userId c = user_id u) (collaborators n)
           = Some (i, c) ∧ permission c = "write".
Proof.
  intros Hnd. split.
  - intros (c & Hc & Hid & Hp).
    destruct (list_find_elem_of (λ c, userId c = user_id u) _ _ Hc Hid)
      as [[i c'] Hf].
    exists i, c'. split; [done|].
    apply first_entry_Some in Hf as [Hi Hc'].
    rewrite (NoDup_entry_unique _ c' c Hnd); [done| |done|congruence].
    by eapply list_elem_of_lookup_2.
  - intros (i & c & [Hi Hc]%first_entry_Some & Hp).
    exists c. eauto using list_elem_of_lookup_2.
Qed.

Lemma updateNote_permission w now u id t c n :
  notes w !! id = Some n → note_wf (users w) n →
  (succeeds (updateNote now u id t c w).2 ↔ can_write u n)
  ∧ (¬ can_write u n →
     error_kind (updateNote now u id t c w).2 = Some Forbidden).
Proof.
  intros Hn (Hc & Hres & Hnd).
  unfold can_write, is_owner. rewrite (is_write_collaborator_find _ _ Hnd).
  unfold updateNote. run_handler. rewrite Hn. run_handler.
  rewrite (deref_find_user _ _ Hc). run_handler.
  rewrite (find_collaborator_resolved _ _ _ Hres). run_handler.
  rewrite (map_collaborators_resolved _ _ Hres).
  case_bool_decide as Hown; run_handler.
  { rewrite Hn. run_handler. rewrite (deref_find_user _ _ Hc). simpl.
    split; [split; [by left|done]|intros []; by left]. }
  destruct (list_find _ _) as [[i e]|]; simpl.
  - case_bool_decide as Hp; run_handler.
    + rewrite Hn. run_handler. rewrite (deref_find_user _ _ Hc). simpl.
      split; [split; [by right; eauto|done]|]. intros []; right; eauto.
    + split; [|done].
      split; [intros [=]|]. intros [?|(? & ? & [= <- <-] & ?)]; done.
  - split; [|done].
    split; [intros [=]|]. intros [?|(? & ? & [=] & ?)]; done.
Qed.

(** C6. For an existing note N and a user U, [deleteNote] succeeds exactly
    when U owns N; any other user, write collaborators included, is answered
    Forbidden and the note stays stored. *)
Theorem deleteNote_owner_only w u id n :
  notes w !! id = Some n →
  (succeeds (deleteNote u id w).2 ↔ is_owner u n)
  ∧ (¬ is_owner u n →
     error_kind (deleteNote u id w).2 = Some Forbidden
     ∧ notes (deleteNote u id w).1 !! id = Some n).
Proof.
  intros Hn. unfold deleteNote, is_owner. run_handler. rewrite Hn.
  case_bool_decide as Hown; simpl.
  - split; [done|]. by intros [].
  - split; [|done]. split; [intros [=]|done].
Qed.

Lemma deleteNote_owner_only_witness :
  notes Demo.shared_twice !! 10%N = Some Demo.trip_plan_shared
  ∧ ¬ is_owner Demo.carol Demo.trip_plan_shared
  ∧ error_kind (deleteNote Demo.carol 10 Demo.shared_twice).2 = Some Forbidden.
Proof.
  assert (notes Demo.shared_twice !! 10%N = Some Demo.trip_plan_shared) as Hn
    by (vm_compute; reflexivity).
  assert (¬ is_owner Demo.carol Demo.trip_plan_shared) as Hc
    by (vm_compute; discriminate).
  split_and!; [done..|].
  exact (proj1 (proj2 (deleteNote_owner_only _ Demo.carol _ _ Hn) Hc)).
Defined.

(** C5. For an existing note N and a user U, [getNote] succeeds exactly when
    U owns N or has a collaborator entry, whatever its permission; a user
    with neither is answered Forbidden, and NotFound is answered only when
    the id resolves to no note. *)
Theorem getNote_access us w u id :
  reachable us w →
  match notes w !! id with
  | None => error_kind (getNote u id w).2 = Some NotFound
  | Some n =>
      (succeeds (getNote u id w).2 ↔ can_read u n)
      ∧ (¬ can_read u n → error_kind (getNote u id w).2 = Some Forbidden)
      ∧ error_kind (getNote u id w).2 ≠ Some NotFound
  end.
Proof.
  intros Hw. destruct (notes w !! id) as [n|] eqn:Hn.
  - destruct (reachable_note_wf _ _ _ _ Hw Hn) as (Hc & Hres & Hnd).
    unfold getNote, can_read, is_owner. rewrite is_collaborator_find.
    run_handler. rewrite Hn. run_handler.
    rewrite (deref_find_user _ _ Hc). run_handler.
    rewrite (find_collaborator_resolved _ _ _ Hres). run_handler.
    case_bool_decide as Hown; simpl.
    { split_and!; [split; [by left|done]|intros []; by left|done]. }
    destruct (list_find _ _) as [[i c]|]; simpl.
    + split_and!; [split; [by right; eauto|done]|intros []; by right; eauto|done].
    + split_and!; [|done..].
      split; [intros [=]|]. intros [?|[? [=]]]; done.
  - unfold getNote. run_handler. by rewrite Hn.
Qed.

(** C4. For an existing note N and a user U, [updateNote] succeeds exactly
    when U owns N or has a collaborator entry with permission [write];
    otherwise it is answered Forbidden, and NotFound when N does not
    exist. *)
Theorem updateNote_access us w now u id t c :
  reachable us w →
  match notes w !! id with
  | None => error_kind (updateNote now u id t c w).2 = Some NotFound
  | Some n =>
      (succeeds (updateNote now u id t c w).2 ↔ can_write u n)
      ∧ (¬ can_write u n →
         error_kind (updateNote now u id t c w).2 = Some Forbidden)
  end.
Proof.
  intros Hw. destruct (notes w !! id) as [n|] eqn:Hn.
  - apply updateNote_permission; [done|]. by eapply reachable_note_wf.
  - unfold updateNote. run_handler. by rewrite Hn.
Qed.

(** The worlds of the running example are reachable. *)
Lemma reachable_created : reachable Demo.everyone Demo.created.
Proof.
  apply (reachable_step _ _ Demo.empty); [apply reachable_init| |done].
  repeat constructor.
Defined.

Lemma reachable_shared : reachable Demo.everyone Demo.shared.
Proof.
  apply (reachable_step _ _ Demo.created); [apply reachable_created| |done].
  repeat constructor.
Defined.

Lemma reachable_shared_twice : reachable Demo.everyone Demo.shared_twice.
Proof.
  apply (reachable_step _ _ Demo.shared); [apply reachable_shared| |done].
  repeat constructor.
Defined.

Lemma getNote_access_witness :
  reachable Demo.everyone Demo.shared
  ∧ match notes Demo.shared !! 10%N with
    | None => error_kind (getNote Demo.carol 10 Demo.shared).2 = Some NotFound
    | Some n =>
        (succeeds (getNote Demo.carol 10 Demo.shared).2
         ↔ can_read Demo.carol n)
        ∧ (¬ can_read Demo.carol n →
           error_kind (getNote Demo.carol 10 Demo.shared).2 = Some Forbidden)
        ∧ error_kind (getNote Demo.carol 10 Demo.shared).2 ≠ Some NotFound
    end.
Proof.
  split; [apply reachable_shared|].
  apply (getNote_access Demo.everyone Demo.shared Demo.carol 10).
  apply reachable_shared.
Defined.

Lemma updateNote_access_witness :
  reachable Demo.everyone Demo.shared
  ∧ match notes Demo.shared !! 10%N with
    | None =>
        error_kind (updateNote 2000 Demo.bob 10 None (Some "Rome") Demo.shared).2
        = Some NotFound
    | Some n =>
        (succeeds (updateNote 2000 Demo.bob 10 None (Some "Rome") Demo.shared).2
         ↔ can_write Demo.bob n)
        ∧ (¬ can_write Demo.bob n →
           error_kind
             (updateNote 2000 Demo.bob 10 None (Some "Rome") Demo.shared).2
           = Some Forbidden)
    end.
Proof.
  split; [apply reachable_shared|].
  apply (updateNote_access Demo.everyone Demo.shared 2000 Demo.bob 10).
  apply reachable_shared.
Defined.

(** ** Updates *)

(** C8. A successful [updateNote] changes only the fields it was given: an
    omitted title or content keeps its value, [lastUpdated] becomes the
    current time whatever the values, and id, owner, collaborators and the
    archived flag stay as they were; no other note is touched. *)
Theorem updateNote_frame w now u id t c n :
  notes w !! id = Some n →
  succeeds (updateNote now u id t c w).2 →
  ∃ n', notes (updateNote now u id t c w).1 !! id = Some n'
    ∧ title n' = default (title n) t
    ∧ content n' = default (content n) c
    ∧ lastUpdated n' = now
    ∧ createdBy n' = createdBy n
    ∧ collaborators n' = collaborators n
    ∧ isArchived n' = isArchived n
    ∧ ∀ id', id' ≠ id →
        notes (updateNote now u id t c w).1 !! id' = notes w !! id'.
Proof.
  intros Hn Hok.
  destruct (updateNote_cases now u id t c w)
    as [[_ [k Hk]]|(n' & Hn' & _ & ->)].
  { unfold succeeds in Hok. congruence. }
  assert (n' = n) as -> by congruence.
  exists (updateFields t c now n). simpl.
  rewrite lookup_insert_eq. split_and!; try done.
  intros id' Hne. by rewrite lookup_insert_ne.
Qed.

Lemma updateNote_frame_witness :
  notes Demo.shared_twice !! 10%N = Some Demo.trip_plan_shared
  ∧ succeeds
      (updateNote 2000 Demo.carol 10 None (Some "Rome") Demo.shared_twice).2
  ∧ ∃ n', notes
            (updateNote 2000 Demo.carol 10 None (Some "Rome")
               Demo.shared_twice).1 !! 10%N = Some n'
    ∧ title n' = "Trip Plan"
    ∧ content n' = "Rome"
    ∧ lastUpdated n' = 2000.
Proof.
  assert (notes Demo.shared_twice !! 10%N = Some Demo.trip_plan_shared) as Hn
    by (vm_compute; reflexivity).
  assert (succeeds
            (updateNote 2000 Demo.carol 10 None (Some "Rome")
               Demo.shared_twice).2) as Hok
    by (vm_compute; reflexivity).
  split_and!; [done..|].
  destruct (updateNote_frame _ _ _ _ _ _ _ Hn Hok)
    as (n' & H1 & H2 & H3 & H4 & _).
  exists n'. by split_and!.
Defined.

(** C10. [updateNote] validates nothing: for a requester who may write, any
    title and content, the empty title included, are accepted and stored as
    they came; and no call of [updateNote] is ever answered with a
    ValidationError. *)
Theorem updateNote_unvalidated now u id t c w :
  error_kind (updateNote now u id t c w).2 ≠ Some ValidationError
  ∧ ∀ us n,
      reachable us w → notes w !! id = Some n → can_write u n →
      succeeds (updateNote now u id t c w).2
      ∧ ∃ n', notes (updateNote now u id t c w).1 !! id = Some n'
          ∧ (∀ s, t = Some s → title n' = s)
          ∧ (∀ s, c = Some s → content n' = s).
Proof.
  split.
  - unfold updateNote. run_handler.
    destruct (notes w !! id) as [n|] eqn:Hn; run_handler; [|done].
    destruct (deref _) as [e|x] eqn:Hx; run_handler; [done|].
    destruct (find_collaborator _ _ _) as [e|r]; run_handler; [done|].
    destruct (negb _); run_handler.
    { by destruct (map_collaborators _ _). }
    rewrite Hn. run_handler. by rewrite Hx.
  - intros us n Hw Hn Hcan.
    pose proof (reachable_note_wf _ _ _ _ Hw Hn) as Hwf.
    apply (updateNote_permission w now u id t c n Hn Hwf) in Hcan.
    split; [done|].
    destruct (updateNote_cases now u id t c w)
      as [[_ [k Hk]]|(n' & Hn' & _ & ->)].
    { unfold succeeds in Hcan. congruence. }
    assert (n' = n) as -> by congruence.
    exists (updateFields t c now n). simpl.
    rewrite lookup_insert_eq. split_and!; [done|..]; by intros s ->.
Qed.

Lemma updateNote_unvalidated_witness :
  reachable Demo.everyone Demo.shared_twice
  ∧ notes Demo.shared_twice !! 10%N = Some Demo.trip_plan_shared
  ∧ can_write Demo.carol Demo.trip_plan_shared
  ∧ succeeds
      (updateNote 2000 Demo.carol 10 (Some EmptyString) None
         Demo.shared_twice).2
  ∧ ∃ n', notes
            (updateNote 2000 Demo.carol 10 (Some EmptyString) None
               Demo.shared_twice).1 !! 10%N = Some n'
    ∧ title n' = EmptyString.
Proof.
  assert (notes Demo.shared_twice !! 10%N = Some Demo.trip_plan_shared) as Hn
    by (vm_compute; reflexivity).
  assert (can_write Demo.carol Demo.trip_plan_shared) as Hcan.
  { right. exists (mkCollaborator 3 "write").
    split; [repeat constructor|]. split; reflexivity. }
  destruct (updateNote_unvalidated 2000 Demo.carol 10 (Some EmptyString) None
              Demo.shared_twice) as [_ H].
  destruct (H _ _ reachable_shared_twice Hn Hcan) as (Hok & n' & H1 & H2 & _).
  split_and!; [apply reachable_shared_twice|done..|].
  exists n'. split; [done|]. by apply H2.
Defined.

(** ** Sharing *)

(** After the upsert the user has an entry, and it is the one [find]
    returns. *)
Lemma upsert_find uid perm cs :
  ∃ i, list_find (λ c, userId c = uid)
         (upsert (list_find (λ c, userId c = uid) cs) uid perm cs)
       = Some (i, mkCollaborator uid perm).
Proof.
  destruct (list_find _ cs) as [[i c]|] eqn:Hf; simpl.
  - exists i. apply list_find_Some in Hf as (Hi & Hc & Hleast).
    rewrite Hc. apply list_find_Some. split_and!; [|done|].
    + apply list_lookup_insert_eq. by eapply lookup_lt_Some.
    + intros j y Hj Hlt. rewrite list_lookup_insert_ne in Hj by lia.
      by eapply Hleast.
  - exists (length cs). rewrite (list_find_app_r _ _ _ Hf).
    unfold list_find. simpl. by rewrite decide_True.
Qed.

Lemma upsert_again uid perm perm' cs i :
  list_find (λ c, userId c = uid) cs = Some (i, mkCollaborator uid perm) →
  upsert (list_find (λ c, userId c = uid) cs) uid perm' cs
  = <[i := mkCollaborator uid perm']> cs.
Proof. by intros ->. Qed.

(** [shareNote], run forwards on a note whose references populate. *)
Lemma shareNote_run u id email perm w n v :
  notes w !! id = Some n →
  perm ∈ ["read"; "write"] →
  createdBy n = user_id u →
  is_Some (find_user (users w) (createdBy n)) →
  resolved (users w) (collaborators n) →
  lookup_email (users w) email = Some v →
  title_ok (Some (title n)) = true →
  let shared :=
    set_collaborators
      (upsert (list_find (λ c, userId c = user_id v) (collaborators n))
         (user_id v) perm (collaborators n)) n in
  shareNote u id email perm w
  = (push_outbox (mkNotify id (shared_message u perm n) (user_id v))
       (set_notes <[id := shared]> w),
     json (BNote (populate (users w) id shared))).
Proof.
  intros Hn Hperm Hown Hc Hres Hv Htitle. simpl in Htitle.
  unfold shareNote. run_handler.
  rewrite bool_decide_eq_true_2 by done. run_handler.
  rewrite Hn. run_handler. rewrite (deref_find_user _ _ Hc). run_handler.
  rewrite bool_decide_eq_true_2 by done. run_handler.
  rewrite Hv. run_handler.
  rewrite (map_collaborators_resolved _ _ Hres). run_handler.
  rewrite (find_collaborator_resolved _ _ _ Hres). run_handler.
  rewrite Htitle. by run_handler.
Qed.

(** The entry of a user sits at one index only. *)
Lemma entry_index_unique uid cs i c j c' :
  NoDup (userId <$> cs) →
  cs !! i = Some c → userId c = uid →
  list_find (λ c, userId c = uid) cs = Some (j, c') →
  j = i ∧ c' = c.
Proof.
  intros Hnd Hi Hc [Hj Hc']%first_entry_Some.
  assert (j = i) as ->.
  { eapply NoDup_lookup; [exact Hnd|..]; rewrite list_lookup_fmap.
    - by rewrite Hj.
    - rewrite Hi. simpl. congruence. }
  split; [done|congruence].
Qed.

(** C7. [shareNote] is an idempotent upsert. A successful share leaves
    exactly one entry for the user the email resolves to: if the list it
    finds already holds an entry for that user, wherever in the list, that
    entry's permission is overwritten where it stands and the list keeps
    its length and its other entries; otherwise the entry is appended. The
    same call again leaves the collaborators as they are; a call with
    another permission overwrites the permission of that entry where it
    stands and the list keeps its length. *)
Theorem shareNote_upsert us w u id email perm perm' :
  reachable us w →
  succeeds (shareNote u id email perm w).2 →
  perm' ∈ ["read"; "write"] →
  ∃ v n n1 i,
    lookup_email (users w) email = Some v
    ∧ notes w !! id = Some n
    ∧ notes (shareNote u id email perm w).1 !! id = Some n1
    ∧ collaborators n1 !! i = Some (mkCollaborator (user_id v) perm)
    ∧ entries_of (user_id v) (collaborators n1) = 1%nat
    ∧ (∀ j c, collaborators n !! j = Some c → userId c = user_id v →
         j = i
         ∧ collaborators n1
           = <[j := mkCollaborator (user_id v) perm]> (collaborators n)
         ∧ length (collaborators n1) = length (collaborators n))
    ∧ (user_id v ∉ userId <$> collaborators n →
       collaborators n1
       = (collaborators n ++ [mkCollaborator (user_id v) perm])%list)
    ∧ (succeeds (shareNote u id email perm (shareNote u id email perm w).1).2
       ∧ ∃ n2,
           notes (shareNote u id email perm (shareNote u id email perm w).1).1
             !! id = Some n2
           ∧ collaborators n2 = collaborators n1
           ∧ entries_of (user_id v) (collaborators n2) = 1%nat)
    ∧ (succeeds (shareNote u id email perm' (shareNote u id email perm w).1).2
       ∧ ∃ n2,
           notes (shareNote u id email perm' (shareNote u id email perm w).1).1
             !! id = Some n2
           ∧ collaborators n2
             = <[i := mkCollaborator (user_id v) perm']> (collaborators n1)
           ∧ length (collaborators n2) = length (collaborators n1)).
Proof.
  intros Hw Hok Hperm'.
  destruct (shareNote_cases u id email perm w)
    as [[_ [k Hk]]
       |(n & v & Hn & Hperm & Hown & Hc & Hres & Hv & Htitle & _ & ->)].
  { unfold succeeds in Hok. congruence. }
  destruct (reachable_note_wf _ _ _ _ Hw Hn) as (_ & _ & Hnd).
  set (cs1 := upsert (list_find (λ c, userId c = user_id v) (collaborators n))
                (user_id v) perm (collaborators n)).
  set (n1 := set_collaborators cs1 n).
  set (w1 := push_outbox _ _).
  destruct (upsert_find (user_id v) perm (collaborators n)) as [i Hf].
  fold cs1 in Hf.
  assert (notes w1 !! id = Some n1) as Hn1 by apply lookup_insert_eq.
  assert (resolved (users w1) (collaborators n1)) as Hres1.
  { apply upsert_resolved; [|done].
    apply find_user_elem. by eapply lookup_email_elem. }
  assert (NoDup (userId <$> cs1)) as Hnd1 by by apply upsert_NoDup.
  pose proof (first_entry_Some _ _ _ _ Hf) as [Hi _].
  assert (entries_of (user_id v) cs1 = 1%nat) as Hone.
  { apply entries_of_NoDup; [done|].
    apply list_elem_of_fmap. exists (mkCollaborator (user_id v) perm).
    split; [done|]. by eapply list_elem_of_lookup_2. }
  assert (∀ p, p ∈ ["read"; "write"] →
            shareNote u id email p w1
            = (push_outbox (mkNotify id (shared_message u p n1) (user_id v))
                 (set_notes
                    <[id := set_collaborators
                              (<[i := mkCollaborator (user_id v) p]> cs1) n1]>
                    w1),
               json (BNote
                       (populate (users w1) id
                          (set_collaborators
                             (<[i := mkCollaborator (user_id v) p]> cs1)
                             n1))))) as Hrun.
  { intros p Hp.
    rewrite (shareNote_run u id email p w1 n1 v); try done.
    simpl. fold cs1. by rewrite (upsert_again _ _ _ _ _ Hf). }
  exists v, n, n1, i.
  refine (conj Hv (conj Hn (conj Hn1 (conj Hi (conj Hone
            (conj _ (conj _ (conj _ _)))))))).
  - intros j c Hj Hc'. simpl.
    destruct (list_find (λ c, userId c = user_id v) (collaborators n))
      as [[j' c']|] eqn:Hfind.
    + destruct (entry_index_unique _ _ _ _ _ _ Hnd Hj Hc' Hfind) as [-> ->].
      subst cs1. simpl in *. rewrite Hc'.
      assert (i = j) as ->.
      { apply list_find_Some in Hf as (Hi' & _ & Hleast).
        rewrite Hc' in Hi', Hleast.
        destruct (decide (i = j)) as [|Hne]; [done|].
        rewrite list_lookup_insert_ne in Hi' by done.
        exfalso. apply Hne. symmetry.
        eapply NoDup_lookup; [exact Hnd|..]; rewrite list_lookup_fmap.
        - by rewrite Hj.
        - rewrite Hi'. simpl. congruence. }
      split_and!; [done|done|apply length_insert].
    + exfalso. apply first_entry_None in Hfind. apply Hfind.
      apply list_elem_of_fmap. exists c. split; [done|].
      by eapply list_elem_of_lookup_2.
  - intros Hnin%first_entry_None. simpl. subst cs1. by rewrite Hnin.
  - rewrite (Hrun perm Hperm). simpl. split; [done|].
    rewrite lookup_insert_eq. eexists; split; [done|]. simpl.
    by rewrite (list_insert_id _ _ _ Hi).
  - rewrite (Hrun perm' Hperm'). simpl. split; [done|].
    rewrite lookup_insert_eq. eexists; split; [done|]. simpl.
    split; [done|]. apply length_insert.
Qed.

Lemma shareNote_upsert_witness :
  reachable Demo.everyone Demo.shared_twice
  ∧ succeeds
      (shareNote Demo.alice 10 "bob@example.org" "write" Demo.shared_twice).2
  ∧ "read" ∈ ["read"; "write"]
  ∧ ∃ n1,
      notes
        (shareNote Demo.alice 10 "bob@example.org" "write"
           Demo.shared_twice).1 !! 10%N = Some n1
      ∧ collaborators n1
        = [mkCollaborator 2 "write"; mkCollaborator 3 "write"].
Proof.
  assert (succeeds
            (shareNote Demo.alice 10 "bob@example.org" "write"
               Demo.shared_twice).2)
    as Hok by (vm_compute; reflexivity).
  assert ("read" ∈ ["read"; "write"]) as Hperm by repeat constructor.
  split_and!; [apply reachable_shared_twice|done..|].
  destruct (shareNote_upsert Demo.everyone Demo.shared_twice Demo.alice 10
              "bob@example.org" "write" "read" reachable_shared_twice Hok
              Hperm)
    as (v & n & n1 & i & Hv & Hn & Hn1 & _ & _ & Hplace & _).
  exists n1. split; [exact Hn1|].
  vm_compute in Hv. injection Hv as <-.
  vm_compute in Hn. injection Hn as <-.
  destruct (Hplace 0%nat (mkCollaborator 2 "read") eq_refl eq_refl)
    as (_ & -> & _).
  reflexivity.
Defined.

(** The notification of [shareNote] never reaches the user the note was
    shared with: that user is passed where the socket layer expects the one
    to leave out. *)
Lemma recipients_exclude watchers c :
  notify_excluded c ∉ recipients watchers c.
Proof. unfold recipients. rewrite list_elem_of_filter. by intros [? _]. Qed.

Lemma shareNote_excludes_target u id email perm w v :
  succeeds (shareNote u id email perm w).2 →
  lookup_email (users w) email = Some v →
  ∃ call, outbox (shareNote u id email perm w).1 = (outbox w ++ [call])%list
    ∧ ∀ watchers, user_id v ∉ recipients watchers call.
Proof.
  intros Hok Hv.
  destruct (shareNote_cases u id email perm w)
    as [[_ [k Hk]]|(n & v' & _ & _ & _ & _ & _ & Hv' & _ & _ & ->)].
  { unfold succeeds in Hok. congruence. }
  assert (v' = v) as -> by congruence.
  eexists. split; [done|]. intros watchers.
  apply (recipients_exclude watchers (mkNotify _ _ _)).
Qed.

(** C1. Alice shares "Trip Plan" with Bob while Alice, Bob and Carol watch
    the note: the message names the permission, the title and Alice, and it
    is pushed to Alice and Carol, not to Bob. *)
Theorem shareNote_notification_misses_target :
  outbox Demo.shared
  = [mkNotify 10
       ("You were given read access to " +:+ dquote +:+ "Trip Plan" +:+ dquote
        +:+ " by Alice") (user_id Demo.bob)]
  ∧ recipients Demo.watchers <$> outbox Demo.shared
    = [[user_id Demo.alice; user_id Demo.carol]].
Proof. split; reflexivity. Qed.

(** ** Creating *)




(** ** The owner and the collaborators list *)

(** C3, as the claim has it: Alice shares her note with her own address
    and becomes a collaborator of her own note. *)
Lemma self_share_adds_owner :
  reachable Demo.everyone Demo.self_shared
  ∧ ¬ owner_not_collaborator Demo.self_shared.
Proof.
  split.
  - apply (reachable_step _ _ Demo.created); [apply reachable_created| |done].
    repeat constructor.
  - intros H.
    apply (H 10%N (mkNote "Trip Plan" EmptyString 1 [mkCollaborator 1 "read"]
                     false 1000)); [reflexivity|].
    repeat constructor.
Qed.

(** C3, amended. In every world reachable through the service's operations
    without a [shareNote] whose email resolves to the requester's own
    account, no note has its owner among its collaborators. *)
Theorem owner_never_collaborator us w :
  reachable_by no_self_share us w → owner_not_collaborator w.
Proof.
  induction 1 as [|w u c Hw IH Hu Hallowed]; [apply map_Forall_empty|].
  pose proof (reachable_by_wf _ _ _ Hw) as [Hus Hwf].
  unfold owner_not_collaborator in *.
  destruct c as [q|id|oid now t c|now id t c|id|id email perm]; simpl.
  - by rewrite getNotes_world.
  - by rewrite getNote_world.
  - destruct (createNote_cases oid now u t c w) as [->|(s & _ & _ & ->)];
      [done|]. simpl.
    apply map_Forall_insert_2; [|done]. simpl. apply not_elem_of_nil.
  - destruct (updateNote_cases now u id t c w) as [[-> _]|(n & Hn & _ & ->)];
      [done|]. simpl.
    apply map_Forall_insert_2; [|done]. simpl. by eapply IH.
  - destruct (deleteNote_cases u id w) as [->| ->]; [done|]. simpl.
    by apply map_Forall_delete.
  - destruct (shareNote_cases u id email perm w)
      as [[-> _]|(n & v & Hn & _ & Hown & _ & _ & Hv & _ & _ & ->)]; [done|].
    simpl. apply map_Forall_insert_2; [|done]. simpl.
    rewrite upsert_ids. specialize (IH _ _ Hn). simpl in IH.
    case_decide; [done|].
    rewrite elem_of_app, list_elem_of_singleton. intros [?|Heq]; [done|].
    apply Hallowed. exists v. split; [done|]. congruence.
Qed.

Lemma owner_never_collaborator_witness :
  reachable_by no_self_share Demo.everyone Demo.shared
  ∧ owner_not_collaborator Demo.shared.
Proof.
  assert (reachable_by no_self_share Demo.everyone Demo.shared) as H.
  { apply (reachable_step _ _ Demo.created).
    - apply (reachable_step _ _ Demo.empty); [apply reachable_init| |].
      + repeat constructor.
      + intros [].
    - repeat constructor.
    - intros (v & Hv & Hid). vm_compute in Hv. injection Hv as <-.
      discriminate Hid. }
  split; [exact H|]. exact (owner_never_collaborator _ _ H).
Defined.

(** ** Listing *)

Lemma matches_true uid a n :
  matches uid a n = true
  ↔ (createdBy n = uid ∨ uid ∈ userId <$> collaborators n) ∧ isArchived n = a.
Proof.
  unfold matches.
  rewrite andb_true_iff, orb_true_iff, !bool_decide_eq_true. done.
Qed.

Lemma find_notes_none u a w :
  no_matching_note u a w → find_notes (user_id u) a w = [].
Proof.
  intros Hnone. unfold find_notes.
  assert (Forall (λ kn, ¬ matches (user_id u) a kn.2 = true)
            (map_to_list (notes w))) as Hall.
  { apply Forall_forall. intros [id n] Hin%elem_of_map_to_list. simpl.
    rewrite matches_true. intros [Hrole Harch].
    destruct (Hnone _ _ Hin Harch) as [Hown Hcol].
    destruct Hrole; done. }
  induction Hall as [|kn l Hkn _ IH]; [done|].
  by rewrite filter_cons_False.
Qed.

(** C9, as the claim has it: with no note at all, page 2 is answered with
    page 2 of 1 and a previous page, not with the zero-result body. *)
Lemma getNotes_page_two_of_nothing :
  (getNotes Demo.bob (mkListQuery (Some 2) None None) Demo.empty).2
  = json (BPage [] (mkPagination 2 1 0 false true))
  ∧ (getNotes Demo.bob (mkListQuery (Some 2) None None) Demo.empty).2
    ≠ json zero_result.
Proof. split; [reflexivity|]. vm_compute. discriminate. Qed.

(** C9, amended. For a user who owns or collaborates on no note matching
    the archived filter, page 1 is answered with exactly the zero-result
    body; a page beyond 1, for a positive page size, is answered without
    error with an empty page whose pagination names the page asked for, one
    total page, zero notes, no next page and a previous page. *)
Theorem getNotes_no_match u q w :
  no_matching_note u (bool_decide (q_showArchived q = Some "true")) w →
  (parseInt_or (q_page q) 1 = 1 → (getNotes u q w).2 = json zero_result)
  ∧ (1 < parseInt_or (q_page q) 1 → 0 < parseInt_or (q_limit q) 10 →
     (getNotes u q w).2
     = json (BPage []
               (mkPagination (parseInt_or (q_page q) 1) 1 0 false true))).
Proof.
  intros Hnone%find_notes_none. unfold getNotes. run_handler.
  rewrite Hnone. simpl. split.
  - intros ->. done.
  - intros Hpage Hlimit.
    rewrite (bool_decide_eq_false_2 (_ = 1)) by lia. simpl.
    unfold skip_limit. rewrite bool_decide_eq_false_2 by nia. simpl.
    replace (merge_sort newest_first []) with (@nil (ObjectId * Note))
      by reflexivity.
    rewrite drop_nil, take_nil. simpl.
    rewrite bool_decide_eq_false_2 by lia.
    by rewrite bool_decide_eq_true_2 by lia.
Qed.

Lemma getNotes_no_match_witness :
  no_matching_note Demo.bob false Demo.created
  ∧ (getNotes Demo.bob (mkListQuery None None None) Demo.created).2
    = json zero_result
  ∧ (getNotes Demo.bob (mkListQuery (Some 3) (Some 5) None) Demo.created).2
    = json (BPage [] (mkPagination 3 1 0 false true)).
Proof.
  assert (no_matching_note Demo.bob false Demo.created) as H.
  { unfold no_matching_note.
    replace (notes Demo.created) with (<[10%N := Demo.trip_plan]> ∅ : gmap N Note)
      by reflexivity.
    apply map_Forall_insert_2; [|apply map_Forall_empty].
    intros _. split; [discriminate|apply not_elem_of_nil]. }
  split; [exact H|].
  split.
  - apply (getNotes_no_match Demo.bob (mkListQuery None None None)
             Demo.created H).
    reflexivity.
  - apply (getNotes_no_match Demo.bob (mkListQuery (Some 3) (Some 5) None)
             Demo.created H); reflexivity.
Defined.

(** * More of the controller *)

(** ** Listing, page by page *)

Global Instance newest_first_trans : Transitive newest_first.
Proof. unfold newest_first. intros a b c ??. lia. Qed.

Global Instance newest_first_total : Total newest_first.
Proof. unfold newest_first. intros a b. lia. Qed.

Lemma merge_sort_nil_inv {A} (R : relation A) `{!RelDecision R} l :
  merge_sort R l = [] → l = [].
Proof.
  intros H. apply Permutation_nil_r. rewrite <- H.
  symmetry. apply merge_sort_Permutation.
Qed.

(** What a page holds, for a page number and a page size the client can
    sensibly send. *)
Lemma getNotes_listed_page u q w :
  1 ≤ parseInt_or (q_page q) 1 → 0 < parseInt_or (q_limit q) 10 →
  listed (getNotes u q w).2
  = uncurry (populate (users w))
    <$> take (Z.to_nat (parseInt_or (q_limit q) 10))
          (drop (Z.to_nat ((parseInt_or (q_page q) 1 - 1)
                           * parseInt_or (q_limit q) 10))
             (merge_sort newest_first
                (find_notes (user_id u)
                   (bool_decide (q_showArchived q = Some "true")) w))).
Proof.
  intros Hpage Hlimit. unfold getNotes. run_handler.
  destruct (negb _ && _) eqn:Hshort; simpl.
  - apply andb_true_iff in Hshort as [Hnil _].
    apply negb_true_iff, negb_false_iff, bool_decide_eq_true in Hnil.
    rewrite Hnil.
    replace (merge_sort newest_first []) with (@nil (ObjectId * Note))
      by reflexivity.
    by rewrite drop_nil, take_nil.
  - unfold skip_limit. rewrite bool_decide_eq_false_2 by nia. simpl.
    by rewrite Z.abs_eq by lia.
Qed.

Lemma getNotes_listed_sub u q w :
  ∃ shown,
    listed (getNotes u q w).2 = uncurry (populate (users w)) <$> shown
    ∧ shown ⊆ find_notes (user_id u)
                (bool_decide (q_showArchived q = Some "true")) w.
Proof.
  unfold getNotes. run_handler.
  destruct (negb _ && _); simpl.
  { exists []. split; [done|]. apply list_subseteq_nil. }
  unfold skip_limit. case_bool_decide; simpl.
  { exists []. split; [done|]. apply list_subseteq_nil. }
  eexists. split; [done|].
  etrans; [apply subseteq_take|]. etrans; [apply subseteq_drop|].
  intros x. by rewrite merge_sort_Permutation.
Qed.

Lemma parseInt_or_pos p d : p ≠ 0 → parseInt_or (Some p) d = p.
Proof. intros Hp. unfold parseInt_or. by rewrite bool_decide_eq_false_2. Qed.

Lemma ceil_div_bounds a b :
  0 < b → (ceil_div a b - 1) * b < a ≤ ceil_div a b * b.
Proof.
  intros Hb. unfold ceil_div.
  pose proof (Z.div_mod (- a) b) as Hdiv.
  pose proof (Z.mod_pos_bound (- a) b Hb) as Hmod. nia.
Qed.

Lemma length_page {A} (l : Z) (s : Z) (xs : list A) :
  0 < l → 0 ≤ s →
  Z.of_nat (length (take (Z.to_nat l) (drop (Z.to_nat s) xs)))
  = Z.min l (Z.max 0 (Z.of_nat (length xs) - s)).
Proof. intros Hl Hs. rewrite length_take, length_drop. lia. Qed.

(** X1. [getNotes] lists nothing but notes the requester owns or
    collaborates on, and only those whose archived flag is the one asked
    for. *)
Theorem getNotes_only_accessible u q w pn :
  pn ∈ listed (getNotes u q w).2 →
  ∃ id n,
    notes w !! id = Some n
    ∧ pn = populate (users w) id n
    ∧ (createdBy n = user_id u ∨ user_id u ∈ userId <$> collaborators n)
    ∧ isArchived n = bool_decide (q_showArchived q = Some "true").
Proof.
  destruct (getNotes_listed_sub u q w) as (shown & -> & Hsub).
  intros ([id n] & -> & Hin)%list_elem_of_fmap.
  apply Hsub in Hin. unfold find_notes in Hin.
  apply list_elem_of_filter in Hin as [Hm Hin].
  apply elem_of_map_to_list in Hin. apply matches_true in Hm as [Hrole Harch].
  by exists id, n.
Qed.

Lemma getNotes_only_accessible_witness :
  populate Demo.everyone 10 (mkNote "Trip Plan" EmptyString 1
                               [mkCollaborator 2 "read"] false 1000)
    ∈ listed (getNotes Demo.bob (mkListQuery None None None) Demo.shared).2
  ∧ ∃ id n,
      notes Demo.shared !! id = Some n
      ∧ (createdBy n = user_id Demo.bob
         ∨ user_id Demo.bob ∈ userId <$> collaborators n).
Proof.
  assert (populate Demo.everyone 10
            (mkNote "Trip Plan" EmptyString 1 [mkCollaborator 2 "read"] false
               1000)
          ∈ listed (getNotes Demo.bob (mkListQuery None None None)
                      Demo.shared).2) as Hin
    by (vm_compute; constructor).
  split; [exact Hin|].
  destruct (getNotes_only_accessible _ _ _ _ Hin) as (id & n & Hn & _ & Hr & _).
  by exists id, n.
Defined.

Lemma length_listed u p l a w :
  1 ≤ p → 0 < l →
  Z.of_nat (length (listed (getNotes u (page_query p l a) w).2))
  = Z.min l
      (Z.max 0
         (Z.of_nat (length (find_notes (user_id u)
                              (bool_decide (a = Some "true")) w))
          - (p - 1) * l)).
Proof.
  intros Hp Hl.
  rewrite getNotes_listed_page;
    unfold page_query; cbn [q_page q_limit q_showArchived];
    rewrite ?parseInt_or_pos by lia; [|lia..].
  rewrite length_fmap, length_page by nia.
  by rewrite (Permutation_length (merge_sort_Permutation _ _)).
Qed.

(** The answer to a sensible query of a requester who has notes. *)
Lemma getNotes_some u p l a w :
  1 ≤ p → 0 < l →
  find_notes (user_id u) (bool_decide (a = Some "true")) w ≠ [] →
  let found := find_notes (user_id u) (bool_decide (a = Some "true")) w in
  let total := Z.of_nat (length found) in
  (getNotes u (page_query p l a) w).2
  = json (BPage
            (uncurry (populate (users w))
             <$> take (Z.to_nat l)
                   (drop (Z.to_nat ((p - 1) * l))
                      (merge_sort newest_first found)))
            (mkPagination p (ceil_div total l) total
               (bool_decide (p < ceil_div total l)) (bool_decide (p > 1)))).
Proof.
  intros Hp Hl Hne found total. unfold getNotes, page_query.
  cbn [q_page q_limit q_showArchived]. rewrite !parseInt_or_pos by lia.
  run_handler. fold found. fold total.
  rewrite (bool_decide_eq_false_2 _ Hne). simpl.
  unfold skip_limit. rewrite (bool_decide_eq_false_2 (_ < 0)) by nia. simpl.
  assert (0 < total).
  { subst total found. destruct (find_notes _ _ _); [done|]. simpl. lia. }
  pose proof (ceil_div_bounds total l Hl) as Hceil.
  rewrite (bool_decide_eq_false_2 (ceil_div total l = 0)) by nia.
  by rewrite Z.abs_eq by lia.
Qed.

(** X2. For a page number of at least 1, a positive page size and a
    requester with at least one matching note, [getNotes] answers 200 with
    the page asked for, the number of matching notes, the least number of
    pages that holds them all, the notes that are left for this page up to
    the page size, a previous page exactly beyond page 1 and a next page
    exactly when notes remain after this page. *)
Theorem getNotes_pagination u p l a w :
  let total :=
    Z.of_nat (length (find_notes (user_id u) (bool_decide (a = Some "true"))
                        w)) in
  1 ≤ p → 0 < l → 0 < total →
  ∃ pg,
    status (getNotes u (page_query p l a) w).2 = 200
    ∧ pagination_of (getNotes u (page_query p l a) w).2 = Some pg
    ∧ currentPage pg = p
    ∧ totalNotes pg = total
    ∧ (totalPages pg - 1) * l < total ≤ totalPages pg * l
    ∧ Z.of_nat (length (listed (getNotes u (page_query p l a) w).2))
      = Z.min l (Z.max 0 (total - (p - 1) * l))
    ∧ (hasPrevPage pg = true ↔ 1 < p)
    ∧ (hasNextPage pg = true ↔ p * l < total).
Proof.
  intros total Hp Hl Htotal.
  assert (find_notes (user_id u) (bool_decide (a = Some "true")) w ≠ [])
    as Hne.
  { intros Hnil. subst total. rewrite Hnil in Htotal. simpl in Htotal. lia. }
  pose proof (length_listed u p l a w Hp Hl) as Hlen. fold total in Hlen.
  revert Hlen. rewrite (getNotes_some u p l a w Hp Hl Hne). fold total.
  intros Hlen. eexists. split; [reflexivity|]. split; [reflexivity|].
  pose proof (ceil_div_bounds total l Hl) as Hceil.
  cbn [currentPage totalNotes totalPages hasPrevPage hasNextPage].
  split_and!; [done|done|lia|lia|exact Hlen|..].
  - rewrite bool_decide_eq_true. lia.
  - rewrite bool_decide_eq_true. nia.
Qed.

Lemma getNotes_pagination_witness :
  1 ≤ 1 ∧ 0 < 10
  ∧ 0 < Z.of_nat (length (find_notes (user_id Demo.bob)
                            (bool_decide (None = Some "true")) Demo.shared))
  ∧ ∃ pg,
      pagination_of (getNotes Demo.bob (page_query 1 10 None) Demo.shared).2
      = Some pg
      ∧ totalNotes pg = 1 ∧ totalPages pg = 1
      ∧ hasNextPage pg = false.
Proof.
  assert (1 ≤ 1) as Hp by lia.
  assert (0 < 10) as Hl by lia.
  assert (0 < Z.of_nat (length (find_notes (user_id Demo.bob)
                                  (bool_decide (None = Some "true"))
                                  Demo.shared))) as Ht
    by (vm_compute; reflexivity).
  split_and!; [done..|].
  destruct (getNotes_pagination Demo.bob 1 10 None Demo.shared Hp Hl Ht)
    as (pg & _ & Hpg & _ & Hn & Hpages & _ & _ & Hnext).
  exists pg. split; [exact Hpg|].
  assert (totalNotes pg = 1) as Hn1 by (rewrite Hn; vm_compute; reflexivity).
  rewrite Hn in Hn1. rewrite Hn1 in Hpages, Hnext.
  split_and!; [by rewrite Hn|lia|].
  destruct (hasNextPage pg); [|done]. destruct Hnext as [Hnext _].
  specialize (Hnext eq_refl). lia.
Defined.

(** X3. [hasNextPage] tells the truth: for a page number of at least 1, a
    positive page size and a requester with at least one matching note, it
    is set exactly when the following page, asked for in the same state of
    the store, holds a note. *)
Theorem getNotes_next_page u p l a w :
  1 ≤ p → 0 < l →
  find_notes (user_id u) (bool_decide (a = Some "true")) w ≠ [] →
  ∃ pg,
    pagination_of (getNotes u (page_query p l a) w).2 = Some pg
    ∧ (hasNextPage pg = true
       ↔ listed (getNotes u (page_query (p + 1) l a) w).2 ≠ []).
Proof.
  intros Hp Hl Hne.
  rewrite (getNotes_some u p l a w Hp Hl Hne). eexists. split; [done|].
  cbn [hasNextPage]. rewrite bool_decide_eq_true.
  pose proof (length_listed u (p + 1) l a w ltac:(lia) Hl) as Hlen.
  pose proof (ceil_div_bounds
                (Z.of_nat (length (find_notes (user_id u)
                                     (bool_decide (a = Some "true")) w)))
                l Hl) as Hceil.
  destruct (listed (getNotes u (page_query (p + 1) l a) w).2); simpl in Hlen.
  - split; [nia|done].
  - split; [done|nia].
Qed.

Lemma getNotes_next_page_witness :
  1 ≤ 1 ∧ 0 < 10
  ∧ find_notes (user_id Demo.bob) (bool_decide (None = Some "true"))
      Demo.shared ≠ []
  ∧ ∃ pg,
      pagination_of (getNotes Demo.bob (page_query 1 10 None) Demo.shared).2
      = Some pg
      ∧ (hasNextPage pg = true
         ↔ listed (getNotes Demo.bob (page_query (1 + 1) 10 None)
                     Demo.shared).2 ≠ []).
Proof.
  assert (1 ≤ 1) as Hp by lia.
  assert (0 < 10) as Hl by lia.
  assert (find_notes (user_id Demo.bob) (bool_decide (None = Some "true"))
            Demo.shared ≠ []) as Hne by (vm_compute; discriminate).
  split_and!; [done..|].
  exact (getNotes_next_page Demo.bob 1 10 None Demo.shared Hp Hl Hne).
Defined.

Lemma pages_upto_take u l a w k :
  0 < l →
  pages_upto u l a w k
  = uncurry (populate (users w))
    <$> take (k * Z.to_nat l)
          (merge_sort newest_first
             (find_notes (user_id u) (bool_decide (a = Some "true")) w)).
Proof.
  intros Hl. unfold pages_upto. induction k as [|k IH]; [done|].
  rewrite seq_S, fmap_app, join_app, IH. simpl.
  rewrite app_nil_r, getNotes_listed_page;
    unfold page_query; cbn [q_page q_limit q_showArchived];
    rewrite ?parseInt_or_pos by lia; [|lia..].
  rewrite <- fmap_app. f_equal.
  replace (Z.to_nat ((Z.of_nat (S k) - 1) * l)) with (k * Z.to_nat l)%nat
    by nia.
  rewrite take_take_drop. f_equal. lia.
Qed.

Lemma distinct_times_inj ns x y :
  distinct_times ns → x ∈ ns → y ∈ ns →
  lastUpdated x.2 = lastUpdated y.2 → x = y.
Proof.
  intros Hnd [i Hi]%list_elem_of_lookup [j Hj]%list_elem_of_lookup Heq.
  assert (i = j) as ->.
  { eapply NoDup_lookup; [exact Hnd|..]; rewrite list_lookup_fmap.
    - by rewrite Hi.
    - rewrite Hj. simpl. by rewrite Heq. }
  congruence.
Qed.

(** With distinct times there is one way to sort: whatever the store hands
    back is the list the handler is run on here. *)
Lemma sort_result_unique found s :
  distinct_times found → sort_result found s →
  s = merge_sort newest_first found.
Proof.
  intros Hnd [Hperm Hsorted].
  apply (StronglySorted_unique_strong newest_first).
  - intros x y Hx Hy Hxy Hyx. apply (distinct_times_inj found); [done|..].
    + by rewrite <- Hperm.
    + by rewrite <- (merge_sort_Permutation newest_first found).
    + unfold newest_first in *. lia.
  - done.
  - apply StronglySorted_merge_sort; apply _.
  - by rewrite merge_sort_Permutation.
Qed.

(** X4. Pages do not overlap and skip nothing, provided no two of the
    requester's matching notes carry the same [lastUpdated], so that the
    sort leaves the store no choice: for a positive page size, each page is
    its slice of whatever newest-first order the store hands back for that
    query, and the pages 1 to k laid end to end, with k large enough to hold
    every matching note, are the requester's matching notes, each once,
    newest first. *)
Theorem getNotes_pages_cover u l a w k :
  0 < l →
  Z.of_nat (length (find_notes (user_id u) (bool_decide (a = Some "true")) w))
  ≤ Z.of_nat k * l →
  distinct_times (find_notes (user_id u) (bool_decide (a = Some "true")) w) →
  (∀ p s,
     (1 ≤ p)%nat →
     sort_result (find_notes (user_id u) (bool_decide (a = Some "true")) w) s →
     listed (getNotes u (page_query (Z.of_nat p) l a) w).2
     = page_slice (users w) p l s)
  ∧ pages_upto u l a w k
    ≡ₚ uncurry (populate (users w))
       <$> find_notes (user_id u) (bool_decide (a = Some "true")) w
  ∧ StronglySorted p_newest_first (pages_upto u l a w k).
Proof.
  intros Hl Hk Hnd. split.
  { intros p s Hp Hs. rewrite (sort_result_unique _ _ Hnd Hs).
    rewrite getNotes_listed_page;
      unfold page_query; cbn [q_page q_limit q_showArchived];
      rewrite ?parseInt_or_pos by lia; [|lia..].
    unfold page_slice. do 3 f_equal. nia. }
  rewrite pages_upto_take by done.
  rewrite take_ge.
  - split.
    + by rewrite merge_sort_Permutation.
    + eapply StronglySorted_fmap; [|apply StronglySorted_merge_sort; apply _].
      by intros [??] [??].
  - rewrite (Permutation_length (merge_sort_Permutation _ _)). nia.
Qed.

Lemma find_notes_packing :
  find_notes (user_id Demo.alice) (bool_decide (None = Some "true")) packing
  = [(10%N, mkNote "Trip Plan" EmptyString 1 [mkCollaborator 2 "read"] false
              1000);
     (11%N, mkNote "Packing list" EmptyString 1 [] false 3000)]
  ∨ find_notes (user_id Demo.alice) (bool_decide (None = Some "true")) packing
    = [(11%N, mkNote "Packing list" EmptyString 1 [] false 3000);
       (10%N, mkNote "Trip Plan" EmptyString 1 [mkCollaborator 2 "read"] false
                1000)].
Proof. vm_compute. auto. Defined.

Lemma distinct_times_packing :
  distinct_times
    (find_notes (user_id Demo.alice) (bool_decide (None = Some "true"))
       packing).
Proof.
  unfold distinct_times.
  destruct find_notes_packing as [-> | ->]; simpl;
    (apply NoDup_cons; split; [|apply NoDup_singleton]);
    intros [=]%list_elem_of_singleton.
Defined.

Lemma getNotes_pages_cover_witness :
  0 < 1
  ∧ Z.of_nat (length (find_notes (user_id Demo.alice)
                        (bool_decide (None = Some "true")) packing))
    ≤ Z.of_nat 2 * 1
  ∧ distinct_times
      (find_notes (user_id Demo.alice) (bool_decide (None = Some "true"))
         packing)
  ∧ StronglySorted p_newest_first (pages_upto Demo.alice 1 None packing 2)
  ∧ p_id <$> pages_upto Demo.alice 1 None packing 2 = [11%N; 10%N].
Proof.
  assert (0 < 1) as Hl by lia.
  assert (Z.of_nat (length (find_notes (user_id Demo.alice)
                              (bool_decide (None = Some "true"))
                              packing)) ≤ Z.of_nat 2 * 1) as Hk
    by (vm_compute; discriminate).
  split_and!; [done|done|apply distinct_times_packing| |reflexivity].
  exact (proj2 (proj2 (getNotes_pages_cover Demo.alice 1 None packing 2 Hl Hk
                         distinct_times_packing))).
Defined.

(** ** Handlers, run forwards *)

Lemma getNote_run u id w n :
  notes w !! id = Some n → note_wf (users w) n →
  let found := list_find (λ c, userId c = user_id u) (collaborators n) in
  let isCreator := bool_decide (createdBy n = user_id u) in
  getNote u id w
  = (w,
     if isCreator || bool_decide (is_Some found) then
       json (BNoteView (populate (users w) id n) isCreator
               (if isCreator then "write"
                else match found with
                     | Some (_, c) => permission c
                     | None => "read"
                     end)
               (Some (mkPermissionInfo (user_id u) (createdBy n) isCreator
                        (snd <$> found))))
     else mkResponse 403 (BMessage "Access denied")).
Proof.
  intros Hn (Hc & Hres & _). unfold getNote. run_handler.
  rewrite Hn. run_handler. rewrite (deref_find_user _ _ Hc). run_handler.
  rewrite (find_collaborator_resolved _ _ _ Hres). run_handler.
  by destruct (_ || _).
Qed.

Lemma getNote_missing u id w :
  notes w !! id = None →
  getNote u id w = (w, mkResponse 404 (BMessage "Note not found")).
Proof. intros Hn. unfold getNote. run_handler. by rewrite Hn. Qed.

Lemma updateNote_missing now u id t c w :
  notes w !! id = None →
  updateNote now u id t c w
  = (w, mkResponse 404 (BMessage "Note not found")).
Proof. intros Hn. unfold updateNote. run_handler. by rewrite Hn. Qed.

Lemma updateNote_denied now u id t c w n :
  notes w !! id = Some n → note_wf (users w) n → ¬ can_write u n →
  updateNote now u id t c w
  = (w,
     mkResponse 403
       (BDenied "Write access denied"
          (mkDeniedInfo "collaborator" (user_id u) (createdBy n)
             (collaborators n)))).
Proof.
  intros Hn (Hc & Hres & Hnd) Hcan.
  unfold updateNote. run_handler. rewrite Hn. run_handler.
  rewrite (deref_find_user _ _ Hc). run_handler.
  rewrite (find_collaborator_resolved _ _ _ Hres). run_handler.
  rewrite (map_collaborators_resolved _ _ Hres).
  rewrite bool_decide_eq_false_2 by (intros ?; apply Hcan; by left).
  simpl.
  destruct (list_find _ _) as [[i e]|] eqn:Hf; simpl; [|done].
  rewrite bool_decide_eq_false_2; [done|].
  intros Hp. apply Hcan. right.
  apply (is_write_collaborator_find _ _ Hnd). eauto.
Qed.

(** A successful [updateNote] was asked for by someone who may write. *)
Lemma updateNote_succeeds_inv now u id t c w :
  succeeds (updateNote now u id t c w).2 →
  ∃ n, notes w !! id = Some n ∧ can_write u n.
Proof.
  unfold updateNote, succeeds. run_handler.
  destruct (notes w !! id) as [n|] eqn:Hn; run_handler; [|done].
  destruct (deref _) as [e|x] eqn:Hx; run_handler; [done|].
  apply deref_inr in Hx as ->.
  destruct (find_collaborator _ _ _) as [e|r] eqn:Hf; run_handler; [done|].
  apply find_collaborator_inr in Hf.
  destruct (negb _) eqn:Hcan; run_handler.
  { by destruct (map_collaborators _ _). }
  intros _. exists n. split; [done|].
  apply negb_false_iff, orb_true_iff in Hcan as [Hown|Hcol].
  - left. by apply bool_decide_eq_true in Hown.
  - right. destruct r as [[i e]|]; [|done].
    apply bool_decide_eq_true in Hcol.
    symmetry in Hf. apply first_entry_Some in Hf as [Hi He].
    exists e. eauto using list_elem_of_lookup_2.
Qed.

Lemma createNote_spec oid now u t c w :
  (createNote oid now u t c w).1 = w
   ∧ error_kind (createNote oid now u t c w).2 = Some InternalError
  ∨ ∃ s, t = Some s ∧ trim s ≠ EmptyString ∧ notes w !! oid = None
      ∧ createNote oid now u t c w
        = (set_notes <[oid := mkNote s (default EmptyString c) (user_id u) []
                                 false now]> w,
           mkResponse 201
             (BNote (populate (users w) oid
                       (mkNote s (default EmptyString c) (user_id u) [] false
                          now)))).
Proof.
  unfold createNote. run_handler.
  destruct t as [s|]; [|by left]. simpl.
  case_bool_decide as Hs; run_handler; [by left|].
  destruct (notes w !! oid) eqn:Hoid; run_handler; [by left|].
  right. by exists s.
Qed.

Lemma deleteNote_spec u id w :
  (deleteNote u id w).1 = w ∧ is_Some (error_kind (deleteNote u id w).2)
  ∨ ∃ n, notes w !! id = Some n ∧ createdBy n = user_id u
      ∧ deleteNote u id w
        = (set_notes (delete id) w,
           json (BMessage "Note deleted successfully")).
Proof.
  unfold deleteNote. run_handler.
  destruct (notes w !! id) as [n|] eqn:Hn; run_handler; [|left; eauto].
  case_bool_decide; run_handler; [|left; eauto].
  right. by exists n.
Qed.

(** ** Reading *)

(** X5. The two reading handlers write nothing: whatever they answer, the
    notes, the users and the calls made to the socket layer are what they
    were. *)
Theorem reads_change_nothing u q id w :
  (getNotes u q w).1 = w ∧ (getNote u id w).1 = w.
Proof. split; [apply getNotes_world|apply getNote_world]. Qed.

(** X6. A successful [getNote] tells the requester where they stand:
    [isOwnedByCurrentUser] is set exactly for the owner, [userPermission] is
    [write] for the owner, even one who also has a collaborator entry, and
    for anyone else it is the permission of their collaborator entry. *)
Theorem getNote_permission_fields us w u id n :
  reachable us w → notes w !! id = Some n → can_read u n →
  ∃ perm info,
    (getNote u id w).2
    = json (BNoteView (populate (users w) id n)
              (bool_decide (createdBy n = user_id u)) perm info)
    ∧ (is_owner u n → perm = "write")
    ∧ (¬ is_owner u n →
       ∀ c, c ∈ collaborators n → userId c = user_id u →
            perm = permission c).
Proof.
  intros Hw Hn Hread.
  pose proof (reachable_note_wf _ _ _ _ Hw Hn) as Hwf.
  rewrite (getNote_run u id w n Hn Hwf). simpl. unfold is_owner.
  destruct Hwf as (_ & _ & Hnd).
  case_bool_decide as Hown; simpl.
  { eexists _, _. split; [done|]. split; [done|]. by intros []. }
  destruct Hread as [?|Hcol]; [done|].
  apply is_collaborator_find in Hcol as [[i e] Hf]. rewrite Hf. simpl.
  eexists _, _. split; [done|]. split; [done|].
  intros _ c Hc Hid. apply first_entry_Some in Hf as [Hi He].
  f_equal. apply (NoDup_entry_unique _ _ _ Hnd); [|done|congruence].
  by eapply list_elem_of_lookup_2.
Qed.

Lemma getNote_permission_fields_witness :
  reachable Demo.everyone Demo.shared_twice
  ∧ notes Demo.shared_twice !! 10%N = Some Demo.trip_plan_shared
  ∧ can_read Demo.bob Demo.trip_plan_shared
  ∧ ∃ info,
      (getNote Demo.bob 10 Demo.shared_twice).2
      = json (BNoteView (populate Demo.everyone 10 Demo.trip_plan_shared)
                false "read" info).
Proof.
  assert (notes Demo.shared_twice !! 10%N = Some Demo.trip_plan_shared) as Hn
    by (vm_compute; reflexivity).
  assert (can_read Demo.bob Demo.trip_plan_shared) as Hread.
  { right. exists (mkCollaborator 2 "read").
    split; [repeat constructor|reflexivity]. }
  split_and!; [apply reachable_shared_twice|done..|].
  destruct (getNote_permission_fields _ _ _ _ _ reachable_shared_twice Hn
              Hread) as (perm & info & Hr & _ & Hperm).
  exists info. rewrite Hr. simpl.
  rewrite (Hperm ltac:(vm_compute; discriminate) (mkCollaborator 2 "read"));
    [reflexivity|repeat constructor|reflexivity].
Defined.

(** ** Creating *)

(** X7. [createNote] never touches what is there: whatever the request and
    whatever the answer, every note stored before is stored unchanged
    after, the users are the same and nothing is handed to the socket
    layer. *)
Theorem createNote_frame oid now u t c w :
  (∀ id n, notes w !! id = Some n →
           notes (createNote oid now u t c w).1 !! id = Some n)
  ∧ users (createNote oid now u t c w).1 = users w
  ∧ outbox (createNote oid now u t c w).1 = outbox w.
Proof.
  destruct (createNote_spec oid now u t c w)
    as [[-> _]|(s & _ & _ & Hoid & ->)]; [done|].
  simpl. split_and!; [|done..].
  intros id n Hn. rewrite lookup_insert_ne; [done|]. congruence.
Qed.



(** ** Updating *)

(** X9. A successful [updateNote] hands exactly one call to the socket
    layer: about the note updated, naming its title as it is after the
    update and the requester, and with the requester as the user to leave
    out. *)
Theorem updateNote_notifies now u id t c w n :
  notes w !! id = Some n →
  succeeds (updateNote now u id t c w).2 →
  outbox (updateNote now u id t c w).1
  = (outbox w
     ++ [mkNotify id
           ("Note " +:+ dquote +:+ default (title n) t +:+ dquote
            +:+ " was updated by " +:+ user_name u)
           (user_id u)])%list.
Proof.
  intros Hn Hok.
  destruct (updateNote_cases now u id t c w)
    as [[_ [k Hk]]|(n' & Hn' & _ & ->)].
  { unfold succeeds in Hok. congruence. }
  by assert (n' = n) as -> by congruence.
Qed.

Lemma updateNote_notifies_witness :
  notes Demo.shared !! 10%N
  = Some (mkNote "Trip Plan" EmptyString 1 [mkCollaborator 2 "read"] false
            1000)
  ∧ succeeds (updateNote 2000 Demo.alice 10 (Some "Rome") None Demo.shared).2
  ∧ notify_excluded
      <$> outbox (updateNote 2000 Demo.alice 10 (Some "Rome") None
                    Demo.shared).1
    = [2%N; 1%N].
Proof.
  assert (notes Demo.shared !! 10%N
          = Some (mkNote "Trip Plan" EmptyString 1 [mkCollaborator 2 "read"]
                    false 1000)) as Hn by (vm_compute; reflexivity).
  assert (succeeds
            (updateNote 2000 Demo.alice 10 (Some "Rome") None Demo.shared).2)
    as Hok by (vm_compute; reflexivity).
  split_and!; [done..|].
  rewrite (updateNote_notifies 2000 Demo.alice 10 (Some "Rome") None
             Demo.shared _ Hn Hok).
  reflexivity.
Defined.

(** X10. A refused [updateNote] tells the refused requester who owns the
    note and who collaborates on it with which permission, whether or not
    the requester has any access to the note; it calls every refused
    requester a collaborator; and it changes nothing. *)
Theorem updateNote_refusal_discloses us w now u id t c n :
  reachable us w → notes w !! id = Some n → ¬ can_write u n →
  updateNote now u id t c w
  = (w,
     mkResponse 403
       (BDenied "Write access denied"
          (mkDeniedInfo "collaborator" (user_id u) (createdBy n)
             (collaborators n)))).
Proof.
  intros Hw Hn Hcan. apply updateNote_denied; [done| |done].
  by eapply reachable_note_wf.
Qed.

Lemma updateNote_refusal_discloses_witness :
  reachable Demo.everyone Demo.shared
  ∧ notes Demo.shared !! 10%N
    = Some (mkNote "Trip Plan" EmptyString 1 [mkCollaborator 2 "read"] false
              1000)
  ∧ ¬ can_write Demo.carol
        (mkNote "Trip Plan" EmptyString 1 [mkCollaborator 2 "read"] false 1000)
  ∧ body (updateNote 2000 Demo.carol 10 None None Demo.shared).2
    = BDenied "Write access denied"
        (mkDeniedInfo "collaborator" 3 1 [mkCollaborator 2 "read"]).
Proof.
  assert (notes Demo.shared !! 10%N
          = Some (mkNote "Trip Plan" EmptyString 1 [mkCollaborator 2 "read"]
                    false 1000)) as Hn by (vm_compute; reflexivity).
  assert (¬ can_write Demo.carol
            (mkNote "Trip Plan" EmptyString 1 [mkCollaborator 2 "read"] false
               1000)) as Hcan.
  { intros [Hown|(e & He & Hid & _)]; [discriminate Hown|].
    apply list_elem_of_singleton in He as ->. discriminate Hid. }
  split_and!; [apply reachable_shared|done..|].
  by rewrite (updateNote_refusal_discloses _ _ 2000 Demo.carol 10 None None _
                reachable_shared Hn Hcan).
Defined.

(** ** Deleting *)

(** X11. When its owner deletes a note, the note is gone and nothing else
    changes: the other notes and the users stay, nothing is handed to the
    socket layer, and from then on reading, updating or deleting that id
    is answered NotFound for every user. *)
Theorem deleteNote_removes w u id n :
  notes w !! id = Some n → is_owner u n →
  let w' := (deleteNote u id w).1 in
  succeeds (deleteNote u id w).2
  ∧ notes w' = delete id (notes w)
  ∧ users w' = users w
  ∧ outbox w' = outbox w
  ∧ ∀ v now t c,
      error_kind (getNote v id w').2 = Some NotFound
      ∧ error_kind (updateNote now v id t c w').2 = Some NotFound
      ∧ error_kind (deleteNote v id w').2 = Some NotFound.
Proof.
  intros Hn Hown.
  destruct (deleteNote_spec u id w) as [[_ [k Hk]]|(n' & _ & _ & ->)].
  { exfalso. revert Hk. unfold deleteNote. run_handler. rewrite Hn.
    run_handler. by rewrite bool_decide_eq_true_2. }
  simpl. split_and!; [done..|].
  intros v now t c.
  assert (notes (set_notes (delete id) w) !! id = None) as Hgone
    by apply lookup_delete_eq.
  rewrite (getNote_missing v id _ Hgone).
  rewrite (updateNote_missing now v id t c _ Hgone).
  split_and!; [done..|].
  unfold deleteNote. run_handler. by rewrite lookup_delete_eq.
Qed.

Lemma deleteNote_removes_witness :
  notes Demo.shared_twice !! 10%N = Some Demo.trip_plan_shared
  ∧ is_owner Demo.alice Demo.trip_plan_shared
  ∧ notes (deleteNote Demo.alice 10 Demo.shared_twice).1 = ∅
  ∧ error_kind
      (getNote Demo.bob 10 (deleteNote Demo.alice 10 Demo.shared_twice).1).2
    = Some NotFound.
Proof.
  assert (notes Demo.shared_twice !! 10%N = Some Demo.trip_plan_shared) as Hn
    by (vm_compute; reflexivity).
  assert (is_owner Demo.alice Demo.trip_plan_shared) as Hown by reflexivity.
  destruct (deleteNote_removes Demo.shared_twice Demo.alice 10 _ Hn Hown)
    as (_ & Hnotes & _ & _ & Hafter).
  split_and!; [done..| |].
  - rewrite Hnotes. vm_compute. reflexivity.
  - apply (Hafter Demo.bob 0 None None).
Defined.

(** ** Sharing *)

(** X12. [shareNote] checks in a fixed order and changes nothing when a
    check fails: an unknown permission is refused as invalid before the note
    is even looked up; then a missing note is NotFound; then anyone but the
    owner is Forbidden, whatever the email; only the owner learns that an
    email belongs to no user. *)
Theorem shareNote_checks_in_order us w u id email perm :
  reachable us w →
  (perm ∉ ["read"; "write"] →
   shareNote u id email perm w
   = (w, mkResponse 400 (BMessage "Invalid permission type")))
  ∧ (perm ∈ ["read"; "write"] →
     match notes w !! id with
     | None =>
         shareNote u id email perm w
         = (w, mkResponse 404 (BMessage "Note not found"))
     | Some n =>
         (¬ is_owner u n →
          shareNote u id email perm w
          = (w, mkResponse 403
                  (BMessage "Only the creator can share the note")))
         ∧ (is_owner u n → lookup_email (users w) email = None →
            shareNote u id email perm w
            = (w, mkResponse 404 (BMessage "User not found")))
     end).
Proof.
  intros Hw. split.
  - intros Hperm. unfold shareNote. run_handler.
    by rewrite bool_decide_eq_false_2.
  - intros Hperm. destruct (notes w !! id) as [n|] eqn:Hn.
    + destruct (reachable_note_wf _ _ _ _ Hw Hn) as (Hc & _ & _).
      unfold is_owner. split.
      * intros Hown. unfold shareNote. run_handler.
        rewrite bool_decide_eq_true_2 by done. run_handler.
        rewrite Hn. run_handler. rewrite (deref_find_user _ _ Hc).
        run_handler. by rewrite bool_decide_eq_false_2.
      * intros Hown Hv. unfold shareNote. run_handler.
        rewrite bool_decide_eq_true_2 by done. run_handler.
        rewrite Hn. run_handler. rewrite (deref_find_user _ _ Hc).
        run_handler. rewrite bool_decide_eq_true_2 by done. run_handler.
        by rewrite Hv.
    + unfold shareNote. run_handler.
      rewrite bool_decide_eq_true_2 by done. run_handler. by rewrite Hn.
Qed.

Lemma shareNote_checks_in_order_witness :
  reachable Demo.everyone Demo.shared
  ∧ ("admin" ∉ ["read"; "write"])
  ∧ shareNote Demo.bob 99 "nobody@example.org" "admin" Demo.shared
    = (Demo.shared, mkResponse 400 (BMessage "Invalid permission type")).
Proof.
  assert ("admin" ∉ ["read"; "write"]) as Hperm.
  { intros H. apply elem_of_cons in H as [H|H]; [discriminate H|].
    apply list_elem_of_singleton in H. discriminate H. }
  split_and!; [apply reachable_shared|done|].
  exact (proj1 (shareNote_checks_in_order Demo.everyone Demo.shared Demo.bob 99
                  "nobody@example.org" "admin" reachable_shared) Hperm).
Defined.

(** X13. Sharing gives what it says: after a successful [shareNote], the
    user the email resolved to can read the note, and can update it exactly
    when the permission granted is [write] or that user is the owner
    herself. *)
Theorem shareNote_grants us w u id email perm v now t c :
  reachable us w →
  succeeds (shareNote u id email perm w).2 →
  lookup_email (users w) email = Some v →
  succeeds (getNote v id (shareNote u id email perm w).1).2
  ∧ (succeeds (updateNote now v id t c (shareNote u id email perm w).1).2
     ↔ perm = "write" ∨ user_id v = user_id u).
Proof.
  intros Hw Hok Hv.
  destruct (shareNote_cases u id email perm w)
    as [[_ [k Hk]]
       |(n & v' & Hn & _ & Hown & Hc & Hres & Hv' & _ & _ & ->)].
  { unfold succeeds in Hok. congruence. }
  assert (v' = v) as -> by congruence.
  destruct (reachable_note_wf _ _ _ _ Hw Hn) as (_ & _ & Hnd).
  set (cs1 := upsert (list_find (λ c, userId c = user_id v) (collaborators n))
                (user_id v) perm (collaborators n)).
  set (n1 := set_collaborators cs1 n).
  set (w1 := push_outbox _ _).
  destruct (upsert_find (user_id v) perm (collaborators n)) as [i Hf].
  fold cs1 in Hf.
  assert (notes w1 !! id = Some n1) as Hn1 by apply lookup_insert_eq.
  assert (note_wf (users w1) n1) as Hwf1.
  { split_and!; [done| |by apply upsert_NoDup].
    apply upsert_resolved; [|done].
    apply find_user_elem. by eapply lookup_email_elem. }
  split.
  - rewrite (getNote_run v id w1 n1 Hn1 Hwf1). simpl. fold cs1.
    rewrite Hf. simpl. by rewrite orb_true_r.
  - rewrite (proj1 (updateNote_permission w1 now v id t c n1 Hn1 Hwf1)).
    unfold can_write, is_owner.
    rewrite (is_write_collaborator_find _ _ (proj2 (proj2 Hwf1))).
    simpl. fold cs1. rewrite Hf. split.
    + intros [Hcr|(j & e & [= <- <-] & Hp)]; [right; congruence|by left].
    + intros [->|Hid]; [right; eauto|left; congruence].
Qed.

Lemma shareNote_grants_witness :
  reachable Demo.everyone Demo.created
  ∧ succeeds (shareNote Demo.alice 10 "bob@example.org" "read" Demo.created).2
  ∧ lookup_email (users Demo.created) "bob@example.org" = Some Demo.bob
  ∧ succeeds
      (getNote Demo.bob 10
         (shareNote Demo.alice 10 "bob@example.org" "read" Demo.created).1).2
  ∧ ¬ succeeds
        (updateNote 2000 Demo.bob 10 None None
           (shareNote Demo.alice 10 "bob@example.org" "read"
              Demo.created).1).2.
Proof.
  assert (succeeds
            (shareNote Demo.alice 10 "bob@example.org" "read" Demo.created).2)
    as Hok by (vm_compute; reflexivity).
  assert (lookup_email (users Demo.created) "bob@example.org" = Some Demo.bob)
    as Hv by reflexivity.
  destruct (shareNote_grants Demo.everyone Demo.created Demo.alice 10
              "bob@example.org" "read" Demo.bob 2000 None None
              reachable_created Hok Hv) as [Hget Hupd].
  split_and!; [apply reachable_created|done..|].
  intros [H|H]%Hupd; discriminate H.
Defined.




(** ** Across the handlers *)

Lemma status_200_succeeds r : status r = 200 → error_kind r = None.
Proof. intros H. unfold error_kind. by rewrite H. Qed.

(** X15. No handler writes and then fails: whenever a request is answered
    with an error of any kind, the notes, the users and the calls made to
    the socket layer are all as they were before the request. *)
Theorem error_leaves_world u c w :
  is_Some (error_kind (handle u c w).2) → (handle u c w).1 = w.
Proof.
  destruct c as [q|id|oid now t c|now id t c|id|id email perm]; simpl.
  - intros _. apply getNotes_world.
  - intros _. apply getNote_world.
  - destruct (createNote_spec oid now u t c w)
      as [[-> _]|(s & _ & _ & _ & ->)]; [done|by intros [? [=]]].
  - destruct (updateNote_cases now u id t c w)
      as [[-> _]|(n & _ & Hst & _)]; [done|].
    rewrite (status_200_succeeds _ Hst). by intros [? [=]].
  - destruct (deleteNote_spec u id w) as [[-> _]|(n & _ & _ & ->)];
      [done|by intros [? [=]]].
  - destruct (shareNote_cases u id email perm w)
      as [[-> _]|(n & v & _ & _ & _ & _ & _ & _ & _ & -> & _)];
      [done|by intros [? [=]]].
Qed.

Lemma error_leaves_world_witness :
  is_Some (error_kind
             (handle Demo.bob (UpdateNote 2000 10 (Some "Mine") None)
                Demo.shared).2)
  ∧ (handle Demo.bob (UpdateNote 2000 10 (Some "Mine") None) Demo.shared).1
    = Demo.shared.
Proof.
  assert (is_Some (error_kind
                     (handle Demo.bob (UpdateNote 2000 10 (Some "Mine") None)
                        Demo.shared).2)) as H
    by (exists Forbidden; vm_compute; reflexivity).
  split; [exact H|]. exact (error_leaves_world _ _ _ H).
Defined.

(** X16. In every world the service can reach, a user has at most one
    entry in the collaborators of a note. *)
Theorem one_entry_per_user us w id n uid :
  reachable us w → notes w !! id = Some n →
  (entries_of uid (collaborators n) ≤ 1)%nat.
Proof.
  intros Hw Hn. destruct (reachable_note_wf _ _ _ _ Hw Hn) as (_ & _ & Hnd).
  destruct (decide (uid ∈ userId <$> collaborators n)).
  - by rewrite entries_of_NoDup.
  - rewrite entries_of_absent by done. lia.
Qed.

Lemma one_entry_per_user_witness :
  reachable Demo.everyone Demo.shared_twice
  ∧ notes Demo.shared_twice !! 10%N = Some Demo.trip_plan_shared
  ∧ (entries_of 2 (collaborators Demo.trip_plan_shared) ≤ 1)%nat.
Proof.
  assert (notes Demo.shared_twice !! 10%N = Some Demo.trip_plan_shared) as Hn
    by (vm_compute; reflexivity).
  split_and!; [apply reachable_shared_twice|done|].
  exact (one_entry_per_user _ _ _ _ 2%N reachable_shared_twice Hn).
Defined.

Lemma upsert_permissions uid perm cs :
  perm ∈ ["read"; "write"] →
  Forall (λ c, permission c ∈ ["read"; "write"]) cs →
  Forall (λ c, permission c ∈ ["read"; "write"])
    (upsert (list_find (λ c, userId c = uid) cs) uid perm cs).
Proof.
  intros Hperm Hcs. destruct (list_find _ cs) as [[i c]|]; simpl.
  - by apply Forall_insert.
  - apply Forall_app. split; [done|]. by constructor.
Qed.

(** X17. In every world the service can reach, every stored permission is
    [read] or [write]. *)
Theorem permissions_stay_known us w :
  reachable us w → permissions_known w.
Proof.
  unfold permissions_known.
  induction 1 as [|w u c Hw IH Hu _]; [apply map_Forall_empty|].
  destruct c as [q|id|oid now t c|now id t c|id|id email perm]; simpl.
  - by rewrite getNotes_world.
  - by rewrite getNote_world.
  - destruct (createNote_cases oid now u t c w) as [->|(s & _ & _ & ->)];
      [done|]. simpl.
    apply map_Forall_insert_2; [|done]. constructor.
  - destruct (updateNote_cases now u id t c w) as [[-> _]|(n & Hn & _ & ->)];
      [done|]. simpl.
    apply map_Forall_insert_2; [|done]. simpl. by eapply IH.
  - destruct (deleteNote_cases u id w) as [->| ->]; [done|]. simpl.
    by apply map_Forall_delete.
  - destruct (shareNote_cases u id email perm w)
      as [[-> _]|(n & v & Hn & Hperm & _ & _ & _ & _ & _ & _ & ->)]; [done|].
    simpl. apply map_Forall_insert_2; [|done]. simpl.
    apply upsert_permissions; [done|]. by eapply IH.
Qed.

Lemma permissions_stay_known_witness :
  reachable Demo.everyone Demo.shared_twice
  ∧ permissions_known Demo.shared_twice.
Proof.
  split; [apply reachable_shared_twice|].
  exact (permissions_stay_known _ _ reachable_shared_twice).
Defined.

(** X18. No request changes who owns a note or whether it is archived: if
    a note is stored before and after a request, its owner and its archived
    flag are the same. *)
Theorem owner_and_archive_fixed u c w id n n' :
  notes w !! id = Some n →
  notes (handle u c w).1 !! id = Some n' →
  createdBy n' = createdBy n ∧ isArchived n' = isArchived n.
Proof.
  intros Hn.
  destruct c as [q|id0|oid now t c|now id0 t c|id0|id0 email perm]; simpl.
  - rewrite getNotes_world. by intros ?; simplify_eq.
  - rewrite getNote_world. by intros ?; simplify_eq.
  - destruct (createNote_cases oid now u t c w) as [->|(s & _ & Hoid & ->)];
      [by intros ?; simplify_eq|]. simpl.
    rewrite lookup_insert_ne by congruence. by intros ?; simplify_eq.
  - destruct (updateNote_cases now u id0 t c w)
      as [[-> _]|(n0 & Hn0 & _ & ->)]; [by intros ?; simplify_eq|]. simpl.
    destruct (decide (id0 = id)) as [->|Hne].
    + rewrite lookup_insert_eq. by intros ?; simplify_eq.
    + rewrite lookup_insert_ne by done. by intros ?; simplify_eq.
  - destruct (deleteNote_cases u id0 w) as [->| ->];
      [by intros ?; simplify_eq|]. simpl.
    intros [_ Hn']%lookup_delete_Some. by simplify_eq.
  - destruct (shareNote_cases u id0 email perm w)
      as [[-> _]|(n0 & v & Hn0 & _ & _ & _ & _ & _ & _ & _ & ->)];
      [by intros ?; simplify_eq|]. simpl.
    destruct (decide (id0 = id)) as [->|Hne].
    + rewrite lookup_insert_eq. by intros ?; simplify_eq.
    + rewrite lookup_insert_ne by done. by intros ?; simplify_eq.
Qed.

Lemma owner_and_archive_fixed_witness :
  notes Demo.created !! 10%N = Some Demo.trip_plan
  ∧ ∃ n', notes Demo.shared !! 10%N = Some n'
          ∧ createdBy n' = 1%N ∧ isArchived n' = false.
Proof.
  assert (notes Demo.created !! 10%N = Some Demo.trip_plan) as Hn
    by (vm_compute; reflexivity).
  assert (notes
            (handle Demo.alice (ShareNote 10 "bob@example.org" "read")
               Demo.created).1 !! 10%N
          = Some (mkNote "Trip Plan" EmptyString 1 [mkCollaborator 2 "read"]
                    false 1000)) as Hn' by (vm_compute; reflexivity).
  split; [done|]. eexists. split; [exact Hn'|].
  exact (owner_and_archive_fixed _ _ _ _ _ _ Hn Hn').
Defined.

(** X19. Whatever the state of the store, a request changes a stored note
    only with the authority for it: a note disappears, or its collaborators
    change, only on a request of its owner; its title or content changes
    only on a request of its owner or of a user with a [write] entry. *)
Theorem changes_need_authority u c w id n :
  notes w !! id = Some n →
  (notes (handle u c w).1 !! id = None → is_owner u n)
  ∧ ∀ n', notes (handle u c w).1 !! id = Some n' →
      (collaborators n' ≠ collaborators n → is_owner u n)
      ∧ (title n' ≠ title n ∨ content n' ≠ content n → can_write u n).
Proof.
  intros Hn.
  assert (∀ w', w' = w →
            (notes w' !! id = None → is_owner u n)
            ∧ ∀ n', notes w' !! id = Some n' →
                (collaborators n' ≠ collaborators n → is_owner u n)
                ∧ (title n' ≠ title n ∨ content n' ≠ content n →
                   can_write u n)) as Hsame.
  { intros w' ->. split; [congruence|]. intros n' Hn'.
    assert (n' = n) as -> by congruence. split; [done|]. by intros []. }
  destruct c as [q|id0|oid now t c|now id0 t c|id0|id0 email perm]; simpl.
  - apply Hsame, getNotes_world.
  - apply Hsame, getNote_world.
  - destruct (createNote_spec oid now u t c w)
      as [[Hw _]|(s & _ & _ & Hoid & ->)]; [by apply Hsame|]. simpl.
    rewrite lookup_insert_ne by congruence. by apply (Hsame w).
  - destruct (updateNote_cases now u id0 t c w)
      as [[Hw _]|(n0 & Hn0 & Hst & Hw')]; [by apply Hsame|].
    destruct (updateNote_succeeds_inv now u id0 t c w
                (status_200_succeeds _ Hst)) as (n1 & Hn1 & Hcan).
    rewrite Hw'. simpl. destruct (decide (id0 = id)) as [->|Hne].
    + rewrite lookup_insert_eq. simplify_eq. split; [done|].
      intros n' [= <-]. simpl. split; [done|]. by intros _.
    + rewrite lookup_insert_ne by done. by apply (Hsame w).
  - destruct (deleteNote_spec u id0 w) as [[Hw _]|(n0 & Hn0 & Hown & ->)];
      [by apply Hsame|]. simpl.
    destruct (decide (id0 = id)) as [->|Hne].
    + rewrite lookup_delete_eq. simplify_eq. split; [done|]. by intros ? [=].
    + rewrite lookup_delete_ne by done. by apply (Hsame w).
  - destruct (shareNote_cases u id0 email perm w)
      as [[Hw _]|(n0 & v & Hn0 & _ & Hown & _ & _ & _ & _ & _ & ->)];
      [by apply Hsame|]. simpl.
    destruct (decide (id0 = id)) as [->|Hne].
    + rewrite lookup_insert_eq. simplify_eq. split; [done|].
      intros n' [= <-]. simpl. split; [done|]. by intros [].
    + rewrite lookup_insert_ne by done. by apply (Hsame w).
Qed.

Lemma changes_need_authority_witness :
  notes Demo.shared !! 10%N
  = Some (mkNote "Trip Plan" EmptyString 1 [mkCollaborator 2 "read"] false
            1000)
  ∧ is_owner Demo.alice
      (mkNote "Trip Plan" EmptyString 1 [mkCollaborator 2 "read"] false 1000).
Proof.
  assert (notes Demo.shared !! 10%N
          = Some (mkNote "Trip Plan" EmptyString 1 [mkCollaborator 2 "read"]
                    false 1000)) as Hn by (vm_compute; reflexivity).
  split; [done|].
  destruct (changes_need_authority Demo.alice (DeleteNote 10) Demo.shared 10 _
              Hn) as [Hgone _].
  apply Hgone. vm_compute. reflexivity.
Defined.

(** X20. A request hands at most one call to the socket layer, and only a
    successful [updateNote] or [shareNote] hands one: it is about the note
    of the request. Listing, reading, creating, deleting and every refused
    request hand over nothing. *)
Theorem notify_at_most_once u c w :
  outbox (handle u c w).1 = outbox w
  ∨ ∃ call,
      outbox (handle u c w).1 = (outbox w ++ [call])%list
      ∧ succeeds (handle u c w).2
      ∧ notifies c (notify_note call).
Proof.
  destruct c as [q|id|oid now t c|now id t c|id|id email perm]; simpl.
  - left. by rewrite getNotes_world.
  - left. by rewrite getNote_world.
  - left. destruct (createNote_cases oid now u t c w)
      as [->|(s & _ & _ & ->)]; done.
  - destruct (updateNote_cases now u id t c w)
      as [[-> _]|(n & _ & Hst & Hw')]; [by left|].
    right. rewrite Hw'. eexists. split; [done|].
    split; [by apply status_200_succeeds|done].
  - left. destruct (deleteNote_cases u id w) as [->| ->]; done.
  - destruct (shareNote_cases u id email perm w)
      as [[-> _]|(n & v & _ & _ & _ & _ & _ & _ & _ & Hr & Hw')]; [by left|].
    right. rewrite Hw', Hr. eexists. by split.
Qed.

(** ** Listing and reading agree *)

(** X21. The list and the single read agree on who sees a note: in a world
    the service can reach, and provided no two of the user's notes for the
    note's archived flag carry the same [lastUpdated], so that the sort
    leaves the store no choice, [getNote] succeeds for a user on a note
    exactly when the note is on that user's pages for that flag, pages 1 to
    k of a positive size that together hold all that user's notes. *)
Theorem listing_agrees_with_reading us w u id n l k :
  let a := Some (if isArchived n then "true" else "false") in
  reachable us w → notes w !! id = Some n → 0 < l →
  Z.of_nat (length (find_notes (user_id u) (bool_decide (a = Some "true")) w))
  ≤ Z.of_nat k * l →
  distinct_times (find_notes (user_id u) (bool_decide (a = Some "true")) w) →
  succeeds (getNote u id w).2
  ↔ populate (users w) id n ∈ pages_upto u l a w k.
Proof.
  intros a Hw Hn Hl Hk _.
  pose proof (reachable_note_wf _ _ _ _ Hw Hn) as Hwf.
  assert (bool_decide (a = Some "true") = isArchived n) as Ha.
  { subst a. by destruct (isArchived n). }
  rewrite pages_upto_take by done. rewrite take_ge; last first.
  { rewrite (Permutation_length (merge_sort_Permutation _ _)). nia. }
  rewrite merge_sort_Permutation, Ha.
  assert (succeeds (getNote u id w).2 ↔ can_read u n) as ->.
  { rewrite (getNote_run u id w n Hn Hwf). simpl.
    unfold can_read, is_owner. rewrite is_collaborator_find.
    destruct (decide (createdBy n = user_id u)) as [Hown|Hown].
    { rewrite !(bool_decide_eq_true_2 (createdBy n = user_id u)) by done.
      simpl. by split; [left|]. }
    rewrite !(bool_decide_eq_false_2 (createdBy n = user_id u)) by done.
    destruct (list_find _ _) as [[i e]|]; simpl.
    - split; [intros _; right; eauto|done].
    - split; [intros [=]|]. intros [?|[? [=]]]; done. }
  assert ((id, n) ∈ find_notes (user_id u) (isArchived n) w ↔ can_read u n)
    as Hfound.
  { unfold find_notes. rewrite list_elem_of_filter, elem_of_map_to_list.
    simpl. rewrite matches_true. unfold can_read, is_owner, is_collaborator.
    rewrite list_elem_of_fmap. split.
    - intros [[[?|(e & ? & ?)] _] _]; [by left|right; by exists e].
    - intros [?|(e & ? & ?)]; (split; [split; [|done]|done]);
        [by left|right; by exists e]. }
  rewrite <- Hfound. rewrite list_elem_of_fmap. split.
  - intros Hin. by exists (id, n).
  - intros ([id' n'] & Heq & Hin).
    assert (id' = id) as -> by (by injection Heq).
    pose proof Hin as Hin'. unfold find_notes in Hin'.
    apply list_elem_of_filter in Hin' as [_ Hin'].
    apply elem_of_map_to_list in Hin'. by simplify_eq.
Qed.

Lemma reachable_packing : reachable Demo.everyone packing.
Proof.
  apply (reachable_step _ _ Demo.shared); [apply reachable_shared| |done].
  repeat constructor.
Defined.

Lemma listing_agrees_with_reading_witness :
  reachable Demo.everyone packing
  ∧ notes packing !! 10%N
    = Some (mkNote "Trip Plan" EmptyString 1 [mkCollaborator 2 "read"] false
              1000)
  ∧ 0 < 1
  ∧ distinct_times
      (find_notes (user_id Demo.alice) (bool_decide (None = Some "true"))
         packing)
  ∧ (succeeds (getNote Demo.alice 10 packing).2
     ↔ populate Demo.everyone 10
         (mkNote "Trip Plan" EmptyString 1 [mkCollaborator 2 "read"] false
            1000)
       ∈ pages_upto Demo.alice 1 (Some "false") packing 2).
Proof.
  assert (notes packing !! 10%N
          = Some (mkNote "Trip Plan" EmptyString 1 [mkCollaborator 2 "read"]
                    false 1000)) as Hn by (vm_compute; reflexivity).
  assert (0 < 1) as Hl by lia.
  split_and!; [apply reachable_packing|done|done|
               apply distinct_times_packing|].
  apply (listing_agrees_with_reading Demo.everyone packing Demo.alice 10 _
           1 2 reachable_packing Hn Hl).
  - vm_compute. discriminate.
  - apply distinct_times_packing.
Defined.

(** ** The create form *)

Lemma trimStart_nil s :
  Dashboard.trimStart s = [] ↔ Forall (λ ch, Dashboard.whitespace ch = true) s.
Proof.
  induction s as [|ch s IH]; simpl; [by split; [constructor|]|].
  destruct (Dashboard.whitespace ch) eqn:Hch.
  - rewrite IH. split; [by constructor|by inversion 1].
  - split; [done|]. inversion 1; congruence.
Qed.

(** What [trimStart] keeps does not start with white space. *)
Lemma trimStart_kept s :
  Forall (λ ch, Dashboard.whitespace ch = true) (Dashboard.trimStart s) →
  Dashboard.trimStart s = [].
Proof.
  induction s as [|ch s IH]; simpl; [done|].
  destruct (Dashboard.whitespace ch) eqn:Hch; [done|].
  inversion 1; congruence.
Qed.

(** [trim] leaves nothing exactly of the strings made of white space. *)
Lemma trim_nil s :
  Dashboard.trim s = [] ↔ Forall (λ ch, Dashboard.whitespace ch = true) s.
Proof.
  unfold Dashboard.trim. split.
  - intros H. apply (f_equal reverse) in H.
    rewrite reverse_involutive in H. simpl in H.
    apply trimStart_nil in H. rewrite Forall_reverse in H.
    by apply trimStart_nil, trimStart_kept.
  - intros H. apply trimStart_nil in H. by rewrite H.
Qed.

(** X22. The create form sends nothing it should not: [handleCreateNote]
    calls the API only when no submission is under way and the title is not
    blank after trimming, that is, holds a character that is not white
    space; it then sends the title as typed, and as content what was typed,
    or [New note] when nothing was typed. *)
Theorem form_sends_only_valid api f t c :
  Dashboard.ApiCreateNote t c ∈ (Dashboard.handleCreateNote api f).2 →
  Dashboard.isSubmitting f = false
  ∧ t = Dashboard.newNoteTitle f
  ∧ Dashboard.trim t ≠ []
  ∧ (∃ ch, ch ∈ t ∧ Dashboard.whitespace ch = false)
  ∧ (Dashboard.newNoteContent f = [] → c = Dashboard.lit "New note")
  ∧ (Dashboard.newNoteContent f ≠ [] → c = Dashboard.newNoteContent f)
  ∧ c ≠ [].
Proof.
  unfold Dashboard.handleCreateNote.
  destruct (Dashboard.isSubmitting f); [by intros ?%elem_of_nil|].
  case_bool_decide as Ht.
  { intros [=]%list_elem_of_singleton. }
  assert (∃ ch, ch ∈ Dashboard.newNoteTitle f
                ∧ Dashboard.whitespace ch = false) as Hch.
  { rewrite trim_nil in Ht. apply not_Forall_Exists in Ht; [|apply _].
    apply Exists_exists in Ht as (ch & Hin & Hws).
    exists ch. split; [done|]. by apply not_true_is_false. }
  assert (Dashboard.newNoteContent f = [] →
          Dashboard.or_else (Dashboard.newNoteContent f)
            (Dashboard.lit "New note") = Dashboard.lit "New note") as Hc0.
  { intros ->. done. }
  assert (Dashboard.newNoteContent f ≠ [] →
          Dashboard.or_else (Dashboard.newNoteContent f)
            (Dashboard.lit "New note") = Dashboard.newNoteContent f) as Hc1.
  { intros ?. unfold Dashboard.or_else. by rewrite bool_decide_eq_false_2. }
  assert (Dashboard.or_else (Dashboard.newNoteContent f)
            (Dashboard.lit "New note") ≠ []) as Hc.
  { unfold Dashboard.or_else. by case_bool_decide. }
  destruct (api _ _); simpl; intros Hin;
    apply elem_of_cons in Hin as [[= -> ->]|Hin]; try done;
    repeat (apply elem_of_cons in Hin as [[=]|Hin]);
    by apply elem_of_nil in Hin.
Qed.

Lemma form_sends_only_valid_witness :
  Dashboard.ApiCreateNote (Dashboard.lit "Trip Plan") (Dashboard.lit "New note")
    ∈ (Dashboard.handleCreateNote Dashboard.accepting
         (Dashboard.mkForm true (Dashboard.lit "Trip Plan") [] false)).2
  ∧ Dashboard.trim (Dashboard.lit "Trip Plan") ≠ [].
Proof.
  assert (Dashboard.ApiCreateNote (Dashboard.lit "Trip Plan")
            (Dashboard.lit "New note")
            ∈ (Dashboard.handleCreateNote Dashboard.accepting
                 (Dashboard.mkForm true (Dashboard.lit "Trip Plan") []
                    false)).2)
    as Hin by (vm_compute; constructor).
  split; [exact Hin|].
  exact (proj1 (proj2 (proj2 (form_sends_only_valid _ _ _ _ Hin)))).
Defined.

(** A title of one no-break space is blank: the form asks for a title and
    calls nothing. *)
Lemma form_refuses_no_break_space api :
  Dashboard.handleCreateNote api (Dashboard.mkForm true [160%N] [] false)
  = (Dashboard.mkForm true [160%N] [] false,
     [Dashboard.ToastError (Dashboard.lit "Title is required")]).
Proof. reflexivity. Qed.

(** X23. The create form cannot get stuck: started while no submission is
    under way and with a title that is not blank after trimming,
    [handleCreateNote] calls the API once and, whether the server accepts or
    refuses, leaves the form not submitting and with title and content
    cleared. When the server accepted, the dialog is closed, the note is
    added, [Note created successfully] is shown and the note is opened.
    When it refused, the dialog stays as it was and the toast shows the
    server's message, or [Error creating note] when there is none or it is
    empty. *)
Theorem form_always_resets api f :
  Dashboard.isSubmitting f = false →
  Dashboard.trim (Dashboard.newNoteTitle f) ≠ [] →
  let f' := (Dashboard.handleCreateNote api f).1 in
  let sent :=
    Dashboard.ApiCreateNote (Dashboard.newNoteTitle f)
      (Dashboard.or_else (Dashboard.newNoteContent f)
         (Dashboard.lit "New note")) in
  Dashboard.isSubmitting f' = false
  ∧ Dashboard.newNoteTitle f' = []
  ∧ Dashboard.newNoteContent f' = []
  ∧ match api (Dashboard.newNoteTitle f)
            (Dashboard.or_else (Dashboard.newNoteContent f)
               (Dashboard.lit "New note")) with
    | inr id =>
        Dashboard.showCreateModal f' = false
        ∧ (Dashboard.handleCreateNote api f).2
          = [sent; Dashboard.DispatchAddNote id;
             Dashboard.ToastSuccess (Dashboard.lit "Note created successfully");
             Dashboard.Navigate id]
    | inl message =>
        Dashboard.showCreateModal f' = Dashboard.showCreateModal f
        ∧ ∃ shown,
            (Dashboard.handleCreateNote api f).2
            = [sent; Dashboard.ToastError shown]
            ∧ (∀ m, message = Some m → m ≠ [] → shown = m)
            ∧ (message = None ∨ message = Some [] →
               shown = Dashboard.lit "Error creating note")
    end.
Proof.
  intros Hsub Ht. unfold Dashboard.handleCreateNote. rewrite Hsub.
  rewrite bool_decide_eq_false_2 by done.
  destruct (api _ _) as [message|id]; simpl; [|done].
  split_and!; [done..|]. eexists. split; [done|].
  unfold Dashboard.or_else. split.
  - intros m -> Hm. simpl. by rewrite bool_decide_eq_false_2.
  - by intros [-> | ->].
Qed.

Lemma form_always_resets_witness :
  Dashboard.isSubmitting
    (Dashboard.mkForm true (Dashboard.lit "Trip Plan") (Dashboard.lit "Rome")
       false)
  = false
  ∧ Dashboard.trim (Dashboard.lit "Trip Plan") ≠ []
  ∧ (Dashboard.handleCreateNote Dashboard.refusing
       (Dashboard.mkForm true (Dashboard.lit "Trip Plan")
          (Dashboard.lit "Rome") false)).1
    = Dashboard.mkForm true [] [] false.
Proof.
  assert (Dashboard.trim (Dashboard.lit "Trip Plan") ≠ []) as Ht
    by (vm_compute; discriminate).
  split_and!; [reflexivity|done|].
  destruct (form_always_resets Dashboard.refusing
              (Dashboard.mkForm true (Dashboard.lit "Trip Plan")
                 (Dashboard.lit "Rome") false) eq_refl Ht)
    as (H1 & H2 & H3 & H4 & _).
  destruct (Dashboard.handleCreateNote _ _).1; simpl in *. by subst.
Defined.
